(** * WaybackCrawl: a shallow embedding of [waybackcrawl.py]

    The development follows the source file top to bottom: Python strings,
    the fragment of [re] used by the rule table, the [CATEGORIES] table and
    [categorize_url], the decoded archive response and [fetch_urls], the
    result dictionary, [scan], [save_results] with the text that
    [json.dump] produces, [print_summary] and the command-line entry
    point.  Theorems come after all definitions. *)

From Stdlib Require Import NArith ZArith Bool List Ascii String Lia.
From Stdlib Require Import DecimalString.
From stdpp Require Import base list gmap.
Import ListNotations.

Set Warnings "-register-all".
Local Open Scope N_scope.

(** ** Python strings *)

(** A Python [str] is a sequence of code points.  Code points are kept as
    [N]; the literals of the source are ASCII and are written as Rocq
    strings through [py]. *)
Abbreviation pystr := (list N).

Definition py (s : string) : pystr :=
  List.map N_of_ascii (list_ascii_of_string s).

(** [str.startswith]. *)
Fixpoint startswith (s prefix : pystr) {struct prefix} : bool :=
  match prefix, s with
  | [], _ => true
  | _ :: _, [] => false
  | p :: prefix', c :: s' => (c =? p) && startswith s' prefix'
  end.

(** [s.split(sep)] for a separator of one code point, as in
    [sys.argv[2].split("=")]: the pieces between the occurrences of [sep],
    always at least one piece. *)
Fixpoint split (sep : N) (s : pystr) : list pystr :=
  match s with
  | [] => [[]]
  | c :: s' =>
      if c =? sep then [] :: split sep s'
      else match split sep s' with
           | piece :: pieces => (c :: piece) :: pieces
           | [] => [[c]]
           end
  end.

(** [str.upper] on the ASCII letters; every string the program
    upper-cases is a key of the result dictionary, and those are ASCII. *)
Definition ascii_upper (c : N) : N :=
  if (97 <=? c) && (c <=? 122) then c - 32 else c.

Definition upper (s : pystr) : pystr := List.map ascii_upper s.

(** [format(s, "<w")]: left-justify in a field of width [w]. *)
Definition ljust (w : nat) (s : pystr) : pystr :=
  s ++ repeat 32 (w - length s)%nat.

(** [str(n)] for a length. *)
Definition str_of_nat (n : nat) : pystr :=
  py (NilZero.string_of_uint (Nat.to_uint n)).

(** ** The fragment of [re] used by the rule table *)

Module Re.

(** Abstract syntax of the patterns: literals, a bracketed set of
    characters and ranges, the end anchor, concatenation and
    alternation.  Groups only delimit an alternation. *)
Inductive set_item :=
| One (c : N)
| Range (lo hi : N).

Inductive regex :=
| Eps
| Lit (c : N)
| In (items : list set_item)
| AtEnd
| Cat (r1 r2 : regex)
| Alt (r1 r2 : regex).

(** *** Parsing a pattern string

    The parser accepts exactly the syntax that occurs in the table:
    ASCII characters, a backslash before a punctuation character,
    a group with alternatives, the dollar sign and a bracketed set.
    Any other special character, and any character outside ASCII, makes
    it answer [None]. *)

Definition is_alnum (c : N) : bool :=
  ((48 <=? c) && (c <=? 57)) || ((65 <=? c) && (c <=? 90))
  || ((97 <=? c) && (c <=? 122)).

(** The dot, the caret, the quantifiers, the braces and a stray closing
    bracket: not in the fragment. *)
Definition unsupported_special (c : N) : bool :=
  (c =? 46) || (c =? 94) || (c =? 42) || (c =? 43) || (c =? 63)
  || (c =? 123) || (c =? 125) || (c =? 93).

(** The items of a bracketed set up to the closing bracket. *)
Fixpoint parse_set (s : pystr) : option (list set_item * pystr) :=
  match s with
  | [] => None
  | c :: s1 =>
      if c =? 93 then Some ([], s1)
      else if (c =? 92) || (c =? 94) || (c =? 91) || (c =? 45) then None
      else
        match s1 with
        | d :: hi :: s2 =>
            if (d =? 45) && negb (hi =? 93) then
              if (hi =? 92) || (hi =? 91) || (hi <? c) then None
              else match parse_set s2 with
                   | Some (items, rest) => Some (Range c hi :: items, rest)
                   | None => None
                   end
            else match parse_set s1 with
                 | Some (items, rest) => Some (One c :: items, rest)
                 | None => None
                 end
        | _ => match parse_set s1 with
               | Some (items, rest) => Some (One c :: items, rest)
               | None => None
               end
        end
  end.

Fixpoint parse_alt (fuel : nat) (s : pystr) : option (regex * pystr) :=
  match fuel with
  | O => None
  | S fuel' =>
      match parse_seq fuel' s with
      | Some (r1, rest) =>
          match rest with
          | c :: rest' =>
              if c =? 124 then
                match parse_alt fuel' rest' with
                | Some (r2, rest'') => Some (Alt r1 r2, rest'')
                | None => None
                end
              else Some (r1, rest)
          | [] => Some (r1, rest)
          end
      | None => None
      end
  end
with parse_seq (fuel : nat) (s : pystr) : option (regex * pystr) :=
  match fuel with
  | O => None
  | S fuel' =>
      match s with
      | [] => Some (Eps, s)
      | c :: _ =>
          if (c =? 124) || (c =? 41) then Some (Eps, s)
          else
            match parse_atom fuel' s with
            | Some (a, rest) =>
                match parse_seq fuel' rest with
                | Some (r, rest') => Some (Cat a r, rest')
                | None => None
                end
            | None => None
            end
      end
  end
with parse_atom (fuel : nat) (s : pystr) : option (regex * pystr) :=
  match fuel with
  | O => None
  | S fuel' =>
      match s with
      | [] => None
      | c :: s1 =>
          if c =? 40 then
            match parse_alt fuel' s1 with
            | Some (r, d :: rest) => if d =? 41 then Some (r, rest) else None
            | _ => None
            end
          else if c =? 92 then
            match s1 with
            | e :: rest => if is_alnum e then None else Some (Lit e, rest)
            | [] => None
            end
          else if c =? 36 then Some (AtEnd, s1)
          else if c =? 91 then
            match parse_set s1 with
            | Some (items, rest) => Some (In items, rest)
            | None => None
            end
          else if unsupported_special c then None
          else Some (Lit c, s1)
      end
  end.

Definition parse (pattern : pystr) : option regex :=
  if forallb (fun c => c <? 128) pattern then
    match parse_alt (2 * length pattern + 2) pattern with
    | Some (r, []) => Some r
    | _ => None
    end
  else None.

(** *** Matching with [re.I]

    Under [re.IGNORECASE] a string pattern is compiled so that a cased
    literal [c] accepts [x] when the lower case of [x] is the lower
    case of [c] or one of its listed equivalents; an uncased literal
    accepts only itself.  [lower] is the lower-casing of [sre] cut down
    to the code points whose image is an ASCII letter: [A-Z], U+0130
    (to [i]) and U+212A (to [k]); the equivalents of an ASCII letter
    are U+0131 for [i] and U+017F for [s]. *)

Definition is_ascii_upper (c : N) : bool := (65 <=? c) && (c <=? 90).
Definition is_ascii_lower (c : N) : bool := (97 <=? c) && (c <=? 122).
Definition iscased (c : N) : bool := is_ascii_upper c || is_ascii_lower c.

Definition lower (x : N) : N :=
  if is_ascii_upper x then x + 32
  else if x =? 304 then 105
  else if x =? 8490 then 107
  else x.

Definition equivalents (lo : N) : list N :=
  if lo =? 105 then [305]
  else if lo =? 115 then [383]
  else [].

Definition lit_matches (c x : N) : bool :=
  if iscased c then
    let lx := lower x in
    (lx =? lower c) || existsb (N.eqb lx) (equivalents (lower c))
  else x =? c.

(** A range under [re.I] is compiled to the set of the lower cases of
    its members together with their equivalents, and [x] is looked up
    through its lower case. *)
Definition in_lowered_range (lo hi y : N) : bool :=
  ((lo <=? y) && (y <=? hi) && negb (is_ascii_upper y))
  || (is_ascii_lower y && (lo <=? y - 32) && (y - 32 <=? hi)).

Definition item_matches (it : set_item) (x : N) : bool :=
  match it with
  | One c => lit_matches c x
  | Range lo hi =>
      let lx := lower x in
      in_lowered_range lo hi lx
      || existsb (fun l => in_lowered_range lo hi l
                           && existsb (N.eqb lx) (equivalents l))
           [105; 115]
  end.

(** The dollar sign without [re.M]: the end of the string, or just
    before a newline that ends it. *)
Definition at_end (s : pystr) : bool :=
  match s with
  | [] => true
  | [c] => c =? 10
  | _ => false
  end.

(** [match_here r s k]: [r] matches a prefix of [s] and the
    continuation [k] accepts what is left. *)
Fixpoint match_here (r : regex) (s : pystr) (k : pystr -> bool) : bool :=
  match r with
  | Eps => k s
  | Lit c =>
      match s with
      | x :: s' => lit_matches c x && k s'
      | [] => false
      end
  | In items =>
      match s with
      | x :: s' => existsb (fun it => item_matches it x) items && k s'
      | [] => false
      end
  | AtEnd => at_end s && k s
  | Cat r1 r2 => match_here r1 s (fun s' => match_here r2 s' k)
  | Alt r1 r2 => match_here r1 s k || match_here r2 s k
  end.

(** A match starting at some position of the string. *)
Fixpoint search_regex (r : regex) (s : pystr) : bool :=
  match_here r s (fun _ => true)
  || match s with
     | [] => false
     | _ :: s' => search_regex r s'
     end.

(** [re.search(pattern, url, re.I)] as a truth value.  A pattern outside
    the fragment answers [false]; [CATEGORIES_in_fragment] below shows
    that no pattern of the table is. *)
Definition search (pattern url : pystr) : bool :=
  match parse pattern with
  | Some r => search_regex r url
  | None => false
  end.

End Re.

(** ** The rule table and the classifier *)

(** [WaybackCrawl.CATEGORIES]: a dictionary literal, iterated in the order
    in which it is written. *)
Definition CATEGORIES : list (pystr * list pystr) :=
  [ (py "js",        [py "\.js(\?|$)"; py "application/javascript"]);
    (py "api",       [py "/api/v[0-9]/"; py "graphql"; py "\.json(\?|$)"]);
    (py "admin",     [py "admin"; py "dashboard"; py "login"; py "wp-admin"]);
    (py "redirects", [py "url="; py "next="; py "redirect="]);
    (py "configs",   [py "\.env"; py "config\."; py "\.git/"]) ].

Definition other : pystr := py "other".

(** The inner loop of [categorize_url]: [true] when the [return cat] under
    [if re.search(pattern, url, re.I)] is reached for some pattern. *)
Fixpoint any_pattern (patterns : list pystr) (url : pystr) : bool :=
  match patterns with
  | [] => false
  | pattern :: patterns' =>
      if Re.search pattern url then true else any_pattern patterns' url
  end.

(** The outer loop over [CATEGORIES.items()], with the final
    [return 'other']. *)
Fixpoint categorize_in (table : list (pystr * list pystr)) (url : pystr)
  : pystr :=
  match table with
  | [] => other
  | (cat, patterns) :: table' =>
      if any_pattern patterns url then cat else categorize_in table' url
  end.

Definition categorize_url (url : pystr) : pystr :=
  categorize_in CATEGORIES url.

(** ** Python values, exceptions and the environment *)

(** What [response.json()] can return: [None], booleans, integers,
    strings, lists and dictionaries with string keys.  (Numbers with a
    fraction or an exponent are left out of the embedding.) *)
Inductive json :=
| JNull
| JBool (b : bool)
| JNum (n : Z)
| JStr (s : pystr)
| JArr (items : list json)
| JObj (members : list (pystr * json)).

Inductive exn :=
| RequestException
| JSONDecodeError
| TypeError
| IndexError
| KeyError
| OSError.

Inductive result (A : Type) :=
| Ok (a : A)
| Raise (e : exn).
Arguments Ok {A} a.
Arguments Raise {A} e.

#[global] Instance result_ret : MRet result := fun A a => Ok a.
#[global] Instance result_bind : MBind result := fun A B f m =>
  match m with
  | Ok a => f a
  | Raise e => Raise e
  end.

(** The outcome of [self.session.get(api_url, timeout=15)] followed by
    [response.json()]. *)
Inductive http_result :=
| Transport_error
| Body_not_json
| Body_json (v : json).

(** What the program does to the outside: lines on standard output, the
    request, and the file it writes.  [PrintApiError e] is the line
    ["[-] Wayback API Error: "] followed by [str(e)]. *)
Inductive event :=
| Print (line : pystr)
| PrintApiError (e : exn)
| HttpGet (url : pystr)
| FileWrite (path content : pystr).

(** [files] holds the content of a file under the path string with which
    it was opened.  Two spellings of one file are not identified: the
    statements below read a file only under the spelling with which the
    run wrote it, and say nothing about a file reached by another
    name. *)
Record world := World {
  trace : list event;
  files : gmap pystr pystr
}.

Definition emit (ev : event) (w : world) : world :=
  World (trace w ++ [ev]) (files w).

(** What the outside decides: the answer of the archive, the order in
    which a [set] is iterated, and whether [open(path, 'w')] succeeds. *)
Record env := Env {
  http : pystr -> http_result;
  set_iter : list json -> list json;
  can_open : pystr -> bool
}.

(** Iterating a set yields each of its elements once, in some order. *)
Definition env_ok (E : env) : Prop :=
  forall l : list json, set_iter E l ≡ₚ l.

(** ** [fetch_urls] *)

(** [v[1:]]; a dictionary does not take a slice. *)
Definition slice_from_1 (v : json) : result json :=
  match v with
  | JArr items => Ok (JArr (tail items))
  | JStr s => Ok (JStr (tail s))
  | _ => Raise TypeError
  end.

(** [for url in v]: the elements of a list, the characters of a string,
    the keys of a dictionary. *)
Definition iterate (v : json) : result (list json) :=
  match v with
  | JArr items => Ok items
  | JStr s => Ok (List.map (fun c => JStr [c]) s)
  | JObj members => Ok (List.map (fun kv => JStr (fst kv)) members)
  | _ => Raise TypeError
  end.

(** [url[0]]. *)
Definition index_0 (v : json) : result json :=
  match v with
  | JArr (x :: _) => Ok x
  | JArr [] => Raise IndexError
  | JStr (c :: _) => Ok (JStr [c])
  | JStr [] => Raise IndexError
  | JObj _ => Raise KeyError
  | _ => Raise TypeError
  end.

(** Python's [==] on the hashable values: booleans are the integers 0
    and 1. *)
Definition as_number (v : json) : option Z :=
  match v with
  | JBool true => Some 1%Z
  | JBool false => Some 0%Z
  | JNum n => Some n
  | _ => None
  end.

Definition py_eqb (a b : json) : bool :=
  match a, b with
  | JNull, JNull => true
  | JStr s, JStr t => bool_decide (s = t)
  | _, _ =>
      match as_number a, as_number b with
      | Some m, Some n => (m =? n)%Z
      | _, _ => false
      end
  end.

Definition hashable (v : json) : bool :=
  match v with
  | JArr _ | JObj _ => false
  | _ => true
  end.

(** [set.add]: an element equal to one already present is dropped. *)
Definition set_add (seen : list json) (x : json) : result (list json) :=
  if hashable x then
    Ok (if existsb (py_eqb x) seen then seen else seen ++ [x])
  else Raise TypeError.

(** [set(url[0] for url in rows)]: the generator is consumed row by row,
    the elements are kept in the order of their first insertion. *)
Fixpoint set_of_firsts (rows : list json) (seen : list json)
  : result (list json) :=
  match rows with
  | [] => Ok seen
  | url :: rows' =>
      x ← index_0 url;
      seen' ← set_add seen x;
      set_of_firsts rows' seen'
  end.

Definition api_url (domain : pystr) : pystr :=
  py "http://web.archive.org/cdx/search/cdx?url=" ++ domain
  ++ py "/*&output=json&fl=original&collapse=urlkey".

(** The body of the [try]:
    [list(set(url[0] for url in response.json()[1:]))]. *)
Definition fetch_try (E : env) (domain : pystr) : result (list json) :=
  match http E (api_url domain) with
  | Transport_error => Raise RequestException
  | Body_not_json => Raise JSONDecodeError
  | Body_json v =>
      sliced ← slice_from_1 v;
      rows ← iterate sliced;
      s ← set_of_firsts rows [];
      Ok (set_iter E s)
  end.

Definition fetch_urls (E : env) (domain : pystr) (w : world)
  : list json * world :=
  let w1 := emit (HttpGet (api_url domain)) w in
  match fetch_try E domain with
  | Ok urls => (urls, w1)
  | Raise e => ([], emit (PrintApiError e) w1)
  end.

(** ** The result dictionary *)

(** A [dict] with string keys, in insertion order. *)
Abbreviation dict V := (list (pystr * V)).

Fixpoint dict_get {V} (d : dict V) (k : pystr) : option V :=
  match d with
  | [] => None
  | (k', v) :: d' => if bool_decide (k' = k) then Some v else dict_get d' k
  end.

(** [d[k] = v]: an existing key keeps its place, a new key goes last. *)
Fixpoint dict_set {V} (d : dict V) (k : pystr) (v : V) : dict V :=
  match d with
  | [] => [(k, v)]
  | (k', v') :: d' =>
      if bool_decide (k' = k) then (k', v) :: d'
      else (k', v') :: dict_set d' k v
  end.

(** [d[k].append(x)]; [KeyError] when [k] is not a key. *)
Definition dict_append (d : dict (list pystr)) (k : pystr) (x : pystr)
  : result (dict (list pystr)) :=
  match dict_get d k with
  | Some l => Ok (dict_set d k (l ++ [x]))
  | None => Raise KeyError
  end.

(** The object: [self.domain] and [self.results] (the session only
    carries the User-Agent header). *)
Record WaybackCrawl := Scanner {
  domain : pystr;
  results : dict (list pystr)
}.

(** [__init__]: [{cat: [] for cat in self.CATEGORIES}], then
    [self.results['other'] = []]. *)
Definition init_results : dict (list pystr) :=
  dict_set
    (fold_left (fun d cat => dict_set d cat []) (List.map fst CATEGORIES) [])
    other [].

Definition init (domain : pystr) : WaybackCrawl :=
  Scanner domain init_results.

(** ** [scan] *)

(** [categorize_url] on an arbitrary value: [re.search] raises
    [TypeError] on anything that is not a string. *)
Definition categorize_value (url : json) : result pystr :=
  match url with
  | JStr s => Ok (categorize_url s)
  | _ => Raise TypeError
  end.

Definition url_text (url : json) : pystr :=
  match url with
  | JStr s => s
  | _ => []
  end.

(** The loop [for url in urls] of [scan].  The executor of the [with]
    block is never given work.  An exception leaves the entries appended
    so far. *)
Fixpoint classify_all (urls : list json) (res : dict (list pystr))
  : result unit * dict (list pystr) :=
  match urls with
  | [] => (Ok tt, res)
  | url :: urls' =>
      match categorize_value url with
      | Ok category =>
          match dict_append res category (url_text url) with
          | Ok res' => classify_all urls' res'
          | Raise e => (Raise e, res)
          end
      | Raise e => (Raise e, res)
      end
  end.

Definition fetching_line (d : pystr) : event :=
  Print (py "[*] Fetching URLs for " ++ d ++ py " from Wayback Machine...").

Definition scan (E : env) (self : WaybackCrawl) (w : world)
  : result bool * WaybackCrawl * world :=
  let w1 := emit (fetching_line (domain self)) w in
  let '(urls, w2) := fetch_urls E (domain self) w1 in
  match urls with
  | [] => (Ok false, self, emit (Print (py "[-] No URLs found")) w2)
  | _ :: _ =>
      let w3 :=
        emit (Print (py "[*] Categorizing " ++ str_of_nat (length urls)
                     ++ py " URLs...")) w2 in
      match classify_all urls (results self) with
      | (Ok _, res) => (Ok true, Scanner (domain self) res, w3)
      | (Raise e, res) => (Raise e, Scanner (domain self) res, w3)
      end
  end.

(** ** [save_results]: the text written by [json.dump(..., indent=2)] *)

Module Encoder.

Definition hex_digit (d : N) : N :=
  if d <? 10 then 48 + d else 87 + d.

(** [format(n, "04x")] for [n < 0x10000]. *)
Definition hex4 (n : N) : pystr :=
  [ hex_digit (n / 4096 mod 16); hex_digit (n / 256 mod 16);
    hex_digit (n / 16 mod 16); hex_digit (n mod 16) ].

Definition u_escape (n : N) : pystr := 92 :: 117 :: hex4 n.

(** The replacement of one character by [encode_basestring_ascii]:
    the quote, the backslash and everything outside [' '..'~'] are
    escaped; a code point above U+FFFF becomes a surrogate pair. *)
Definition escape_char (c : N) : pystr :=
  if c =? 34 then [92; 34]
  else if c =? 92 then [92; 92]
  else if c =? 10 then [92; 110]
  else if c =? 13 then [92; 114]
  else if c =? 9 then [92; 116]
  else if c =? 12 then [92; 102]
  else if c =? 8 then [92; 98]
  else if (32 <=? c) && (c <=? 126) then [c]
  else if c <? 65536 then u_escape c
  else
    let n := c - 65536 in
    u_escape (N.lor 55296 (N.land (N.shiftr n 10) 1023))
    ++ u_escape (N.lor 56320 (N.land n 1023)).

Definition encode_basestring_ascii (s : pystr) : pystr :=
  34 :: flat_map escape_char s ++ [34].

(** ['\n' + ' ' * 2 * level]. *)
Definition newline_indent (level : nat) : pystr :=
  10 :: repeat 32 (2 * level)%nat.

(** [_iterencode_list] on a list of strings. *)
Definition iterencode_list (l : list pystr) (level : nat) : pystr :=
  match l with
  | [] => py "[]"
  | x :: l' =>
      91 :: newline_indent (S level) ++ encode_basestring_ascii x
      ++ flat_map (fun y => 44 :: newline_indent (S level)
                            ++ encode_basestring_ascii y) l'
      ++ newline_indent level ++ [93]
  end.

Definition encode_member (kv : pystr * list pystr) (level : nat) : pystr :=
  encode_basestring_ascii (fst kv) ++ py ": "
  ++ iterencode_list (snd kv) level.

(** [_iterencode_dict] on a dictionary from strings to lists of
    strings. *)
Definition iterencode_dict (d : dict (list pystr)) (level : nat) : pystr :=
  match d with
  | [] => py "{}"
  | kv :: d' =>
      123 :: newline_indent (S level) ++ encode_member kv (S level)
      ++ flat_map (fun kv' => 44 :: newline_indent (S level)
                              ++ encode_member kv' (S level)) d'
      ++ newline_indent level ++ [125]
  end.

(** [json.dumps(d, indent=2)]. *)
Definition dumps (d : dict (list pystr)) : pystr := iterencode_dict d 0.

End Encoder.

Definition save_results (E : env) (self : WaybackCrawl) (filename : pystr)
    (w : world) : result unit * world :=
  if can_open E filename then
    let text := Encoder.dumps (results self) in
    let w1 := World (trace w ++ [FileWrite filename text])
                    (<[filename := text]> (files w)) in
    (Ok tt, emit (Print (py "[+] Results saved to " ++ filename)) w1)
  else (Raise OSError, w).

(** ** [print_summary] *)

Definition summary_line (cat : pystr) (urls : list pystr) : pystr :=
  py "  " ++ ljust 10 (upper cat) ++ py ": " ++ str_of_nat (length urls)
  ++ py " URLs".

Fixpoint summary_lines (d : dict (list pystr)) (w : world) : world :=
  match d with
  | [] => w
  | (cat, urls) :: d' =>
      match urls with
      | [] => summary_lines d' w
      | _ :: _ => summary_lines d' (emit (Print (summary_line cat urls)) w)
      end
  end.

Definition print_summary (self : WaybackCrawl) (w : world) : world :=
  summary_lines (results self)
    (emit (Print (10 :: py "[+] Discovered URLs by Category:")) w).

(** ** The entry point *)

Inductive status :=
| Finished
| Exit (code : Z)
| Uncaught (e : exn).

Definition usage : pystr :=
  py "Usage: python3 waybackcrawl.py <domain> [--output=results.json]".

(** The output file chosen from [sys.argv]. *)
Definition output_file (argv : list pystr) : result pystr :=
  match argv with
  | _ :: _ :: arg2 :: _ =>
      if startswith arg2 (py "--output=") then
        match split 61 arg2 with
        | _ :: name :: _ => Ok name
        | _ => Raise IndexError
        end
      else Ok (py "wayback_results.json")
  | _ => Ok (py "wayback_results.json")
  end.

Definition main (E : env) (argv : list pystr) (w : world) : status * world :=
  match argv with
  | [] | [_] => (Exit 1, emit (Print usage) w)
  | _ :: domain :: _ =>
      match output_file argv with
      | Raise e => (Uncaught e, w)
      | Ok out =>
          let scanner := init domain in
          match scan E scanner w with
          | (Raise e, _, w1) => (Uncaught e, w1)
          | (Ok false, _, w1) => (Finished, w1)
          | (Ok true, scanner', w1) =>
              match save_results E scanner' out w1 with
              | (Raise e, w2) => (Uncaught e, w2)
              | (Ok _, w2) => (Finished, print_summary scanner' w2)
              end
          end
      end
  end.

(** ** Re-reading the file: [json.loads] *)

(** The decoder of the [json] module: [scanstring], [scan_once] with
    [JSONObject] and [JSONArray], and [loads].  As in [json] (the values
    above), numbers with a fraction or an exponent, [NaN] and [Infinity]
    are not part of the embedding: the decoder answers [None] on them, as
    it does on text that is not JSON.  The file that [save_results] writes
    holds strings, lists and one object only. *)
Module Decoder.

Definition is_ws (c : N) : bool :=
  (c =? 32) || (c =? 9) || (c =? 10) || (c =? 13).

(** [WHITESPACE.match(s, end).end()]. *)
Fixpoint skip_ws (s : pystr) : pystr :=
  match s with
  | c :: s' => if is_ws c then skip_ws s' else s
  | [] => []
  end.

Definition hex_value (c : N) : option N :=
  if (48 <=? c) && (c <=? 57) then Some (c - 48)
  else if (97 <=? c) && (c <=? 102) then Some (c - 87)
  else if (65 <=? c) && (c <=? 70) then Some (c - 55)
  else None.

Definition decode_uXXXX (a b c d : N) : option N :=
  match hex_value a, hex_value b, hex_value c, hex_value d with
  | Some x3, Some x2, Some x1, Some x0 =>
      Some (x3 * 4096 + x2 * 256 + x1 * 16 + x0)
  | _, _, _, _ => None
  end.

(** The [BACKSLASH] table. *)
Definition backslash (e : N) : option N :=
  if e =? 34 then Some 34
  else if e =? 92 then Some 92
  else if e =? 47 then Some 47
  else if e =? 98 then Some 8
  else if e =? 102 then Some 12
  else if e =? 110 then Some 10
  else if e =? 114 then Some 13
  else if e =? 116 then Some 9
  else None.

Definition is_high_surrogate (c : N) : bool := (55296 <=? c) && (c <=? 56319).
Definition is_low_surrogate (c : N) : bool := (56320 <=? c) && (c <=? 57343).

Definition join_surrogates (hi lo : N) : N :=
  65536 + N.lor (N.shiftl (hi - 55296) 10) (lo - 56320).

Definition cons_char (c : N) (r : option (pystr * pystr))
  : option (pystr * pystr) :=
  match r with
  | Some (t, rest) => Some (c :: t, rest)
  | None => None
  end.

(** [scanstring] in strict mode, from just after the opening quote:
    the decoded string and the text after the closing quote.  A
    [\uXXXX] escape of a high surrogate directly followed by one of a
    low surrogate is joined into one code point. *)
Fixpoint scanstring (s : pystr) : option (pystr * pystr) :=
  match s with
  | [] => None
  | c :: s1 =>
      if c =? 34 then Some ([], s1)
      else if c =? 92 then
        match s1 with
        | [] => None
        | e :: s2 =>
            if e =? 117 then
              match s2 with
              | a :: b :: c' :: d :: s3 =>
                  match decode_uXXXX a b c' d with
                  | None => None
                  | Some uni =>
                      match s3 with
                      | bs :: u :: a2 :: b2 :: c2 :: d2 :: s4 =>
                          if is_high_surrogate uni && (bs =? 92) && (u =? 117)
                          then
                            match decode_uXXXX a2 b2 c2 d2 with
                            | None => None
                            | Some uni2 =>
                                if is_low_surrogate uni2
                                then cons_char (join_surrogates uni uni2)
                                       (scanstring s4)
                                else cons_char uni (scanstring s3)
                            end
                          else cons_char uni (scanstring s3)
                      | _ => cons_char uni (scanstring s3)
                      end
                  end
              | _ => None
              end
            else
              match backslash e with
              | Some ch => cons_char ch (scanstring s2)
              | None => None
              end
        end
      else if c <? 32 then None
      else cons_char c (scanstring s1)
  end.

Definition is_digit (c : N) : bool := (48 <=? c) && (c <=? 57).

Fixpoint digits (s : pystr) (acc : Z) : Z * pystr :=
  match s with
  | c :: s' =>
      if is_digit c then digits s' (acc * 10 + Z.of_N (c - 48))%Z
      else (acc, s)
  | [] => (acc, [])
  end.

(** An integer literal (an optional minus sign, then a zero or a
    non-zero digit and further digits) not followed by a fraction or an
    exponent. *)
Definition integer (s : pystr) : option (Z * pystr) :=
  let '(negative, s0) :=
    match s with
    | c :: s' => if c =? 45 then (true, s') else (false, s)
    | [] => (false, s)
    end in
  match s0 with
  | c :: s1 =>
      if is_digit c then
        let '(n, rest) :=
          if c =? 48 then (0%Z, s1) else digits s0 0%Z in
        match rest with
        | d :: _ =>
            if (d =? 46) || (d =? 101) || (d =? 69) then None
            else Some (if negative then (- n)%Z else n, rest)
        | [] => Some (if negative then (- n)%Z else n, rest)
        end
      else None
  | [] => None
  end.

(** [scan_once], [JSONObject] and [JSONArray].  [members] starts after
    the opening quote of a key, [elements] at a value; duplicate keys of
    an object behave as [dict(pairs)]. *)
Fixpoint scan_once (fuel : nat) (s : pystr) : option (json * pystr) :=
  match fuel with
  | O => None
  | S fuel' =>
      match s with
      | [] => None
      | c :: s1 =>
          if c =? 34 then
            match scanstring s1 with
            | Some (t, rest) => Some (JStr t, rest)
            | None => None
            end
          else if c =? 123 then
            match skip_ws s1 with
            | d :: s2 =>
                if d =? 125 then Some (JObj [], s2)
                else if d =? 34 then members fuel' s2 []
                else None
            | [] => None
            end
          else if c =? 91 then
            match skip_ws s1 with
            | d :: s2 =>
                if d =? 93 then Some (JArr [], s2)
                else elements fuel' (skip_ws s1) []
            | [] => None
            end
          else if startswith s (py "null") then Some (JNull, drop 4 s)
          else if startswith s (py "true") then Some (JBool true, drop 4 s)
          else if startswith s (py "false") then Some (JBool false, drop 5 s)
          else
            match integer s with
            | Some (n, rest) => Some (JNum n, rest)
            | None => None
            end
      end
  end
with members (fuel : nat) (s : pystr) (acc : dict json)
  : option (json * pystr) :=
  match fuel with
  | O => None
  | S fuel' =>
      match scanstring s with
      | Some (key, s1) =>
          match skip_ws s1 with
          | c :: s2 =>
              if c =? 58 then
                match scan_once fuel' (skip_ws s2) with
                | Some (value, s3) =>
                    let acc' := dict_set acc key value in
                    match skip_ws s3 with
                    | d :: s4 =>
                        if d =? 125 then Some (JObj acc', s4)
                        else if d =? 44 then
                          match skip_ws s4 with
                          | q :: s5 =>
                              if q =? 34 then members fuel' s5 acc' else None
                          | [] => None
                          end
                        else None
                    | [] => None
                    end
                | None => None
                end
              else None
          | [] => None
          end
      | None => None
      end
  end
with elements (fuel : nat) (s : pystr) (acc : list json)
  : option (json * pystr) :=
  match fuel with
  | O => None
  | S fuel' =>
      match scan_once fuel' s with
      | Some (value, s1) =>
          match skip_ws s1 with
          | d :: s2 =>
              if d =? 93 then Some (JArr (acc ++ [value]), s2)
              else if d =? 44 then
                elements fuel' (skip_ws s2) (acc ++ [value])
              else None
          | [] => None
          end
      | None => None
      end
  end.

(** [json.loads]: one value between optional white space, nothing after
    it. *)
Definition loads (s : pystr) : option json :=
  match scan_once (S (length s)) (skip_ws s) with
  | Some (v, rest) =>
      match skip_ws rest with
      | [] => Some v
      | _ :: _ => None
      end
  | None => None
  end.

End Decoder.

(** [json.load(open(path))] in a world. *)
Definition read_json (w : world) (path : pystr) : option json :=
  match files w !! path with
  | Some text => Decoder.loads text
  | None => None
  end.

(** The value that a result dictionary denotes. *)
Definition json_of_member (kv : pystr * list pystr) : pystr * json :=
  (fst kv, JArr (List.map JStr (snd kv))).

Definition json_of_results (d : dict (list pystr)) : json :=
  JObj (List.map json_of_member d).

(** ** Auxiliary notions for the statements *)

(** The files written and the requests made, read off a trace. *)
Definition written_of (evs : list event) : list (pystr * pystr) :=
  omap (fun ev => match ev with
                  | FileWrite path content => Some (path, content)
                  | _ => None
                  end) evs.

Definition requests_of (evs : list event) : list pystr :=
  omap (fun ev => match ev with
                  | HttpGet url => Some url
                  | _ => None
                  end) evs.

Definition written (w : world) : list (pystr * pystr) := written_of (trace w).
Definition requests (w : world) : list pystr := requests_of (trace w).

(** The world in which [scan] stops when nothing was fetched. *)
Definition world_no_urls (E : env) (d : pystr) (w : world) : world :=
  emit (Print (py "[-] No URLs found"))
    (fetch_urls E d (emit (fetching_line d) w)).2.

(** The world after [save_results] and [print_summary]. *)
Definition world_saved (self : WaybackCrawl) (out : pystr) (w : world)
  : world :=
  print_summary self
    (emit (Print (py "[+] Results saved to " ++ out))
       (World (trace w ++ [FileWrite out (Encoder.dumps (results self))])
              (<[out := Encoder.dumps (results self)]> (files w)))).

(** A response of the expected shape: a header row, then rows whose
    first element is a URL string. *)
Definition row_of (r : pystr * list json) : json := JArr (JStr r.1 :: r.2).

Definition archive_response (header : json) (rows : list (pystr * list json))
  : json :=
  JArr (header :: List.map row_of rows).

(** The URLs of a list that [categorize_url] sends to [cat], in order. *)
Definition bucket (cat : pystr) (urls : list pystr) : list pystr :=
  filter (fun u => categorize_url u = cat) urls.

(** The rows and the expected buckets of the end-to-end example. *)
Definition example_rows : json :=
  JArr [ JArr [JStr (py "original")];
         JArr [JStr (py "http://x.com/app.js")];
         JArr [JStr (py "http://x.com/api/v1/users")];
         JArr [JStr (py "http://x.com/wp-admin/login.php")];
         JArr [JStr (py "http://x.com/?redirect=http://y.com")];
         JArr [JStr (py "http://x.com/.env")];
         JArr [JStr (py "http://x.com/home")] ].

Definition example_results : dict (list pystr) :=
  [ (py "js",        [py "http://x.com/app.js"]);
    (py "api",       [py "http://x.com/api/v1/users"]);
    (py "admin",     [py "http://x.com/wp-admin/login.php"]);
    (py "redirects", [py "http://x.com/?redirect=http://y.com"]);
    (py "configs",   [py "http://x.com/.env"]);
    (py "other",     [py "http://x.com/home"]) ].

(** An environment for concrete runs: the archive answers every request
    with [v], sets are iterated in insertion order, every file opens. *)
Definition env_answering (v : http_result) : env :=
  Env (fun _ => v) (fun l => l) (fun _ => true).

Definition empty_world : world := World [] ∅.

(** The strings that JSON text can denote: code points up to U+10FFFF, and
    no high surrogate directly followed by a low surrogate (the decoder
    joins such a pair of escapes into one code point, so no decoded
    string holds one). *)
Fixpoint text_safe (s : pystr) : bool :=
  match s with
  | [] => true
  | c :: s' =>
      (c <? 1114112)
      && negb (Decoder.is_high_surrogate c
               && match s' with
                  | d :: _ => Decoder.is_low_surrogate d
                  | [] => false
                  end)
      && text_safe s'
  end.

(** The same for every string of a decoded value. *)
Fixpoint json_safe (v : json) : bool :=
  match v with
  | JStr s => text_safe s
  | JArr items => forallb json_safe items
  | JObj members =>
      forallb (fun kv => text_safe (fst kv) && json_safe (snd kv)) members
  | _ => true
  end.

(** An environment whose archive only answers with such values. *)
Definition env_decoded (E : env) : Prop :=
  forall url v, http E url = Body_json v -> json_safe v = true.

(** The text starts with the escape of a low surrogate (or with a broken
    escape). *)
Definition starts_low_escape (t : pystr) : bool :=
  match t with
  | bs :: t1 =>
      (bs =? 92)
      && match t1 with
         | u :: t2 =>
             (u =? 117)
             && match t2 with
                | a :: b :: c :: d :: _ =>
                    match Decoder.decode_uXXXX a b c d with
                    | Some uni => Decoder.is_low_surrogate uni
                    | None => true
                    end
                | _ => false
                end
         | [] => false
         end
  | [] => false
  end.

Definition results_safe (d : dict (list pystr)) : bool :=
  forallb (fun kv => text_safe (fst kv) && forallb text_safe (snd kv)) d.

(** Fuel that suffices to read back a result dictionary. *)
Definition fuel_for (d : dict (list pystr)) : nat :=
  list_sum (List.map (fun kv => length (snd kv) + 4)%nat d).

(** The result dictionary of a run that fetched the strings [urls]. *)
Definition run_results (urls : list pystr) : dict (list pystr) :=
  List.map (fun kv => (fst kv, bucket (fst kv) urls)) init_results.

(** The part of a string before the first occurrence of [sep]. *)
Fixpoint before_first (sep : N) (s : pystr) : pystr :=
  match s with
  | [] => []
  | c :: s' => if c =? sep then [] else c :: before_first sep s'
  end.

(** What it means for a pattern to match at the start of a string:
    [derives r s rest] when [r] matches a prefix of [s] and [rest] is what
    follows it.  The end anchor looks at what is left of the string. *)
Inductive derives : Re.regex -> pystr -> pystr -> Prop :=
| derives_eps s : derives Re.Eps s s
| derives_lit c x s :
    Re.lit_matches c x = true -> derives (Re.Lit c) (x :: s) s
| derives_in items x s :
    existsb (fun it => Re.item_matches it x) items = true ->
    derives (Re.In items) (x :: s) s
| derives_at_end s : Re.at_end s = true -> derives Re.AtEnd s s
| derives_cat r1 r2 s s1 s2 :
    derives r1 s s1 -> derives r2 s1 s2 -> derives (Re.Cat r1 r2) s s2
| derives_alt_l r1 r2 s s1 : derives r1 s s1 -> derives (Re.Alt r1 r2) s s1
| derives_alt_r r1 r2 s s1 : derives r2 s s1 -> derives (Re.Alt r1 r2) s s1.

(** Text decoded from bytes holds Unicode scalar values only: code points
    up to U+10FFFF that are not surrogates. *)
Definition scalar_value (c : N) : bool :=
  (c <? 1114112) && negb ((55296 <=? c) && (c <=? 57343)).

Definition scalar_text (t : pystr) : bool := forallb scalar_value t.

Definition members_safe (acc : dict json) : bool :=
  forallb (fun kv => text_safe (fst kv) && json_safe (snd kv)) acc.

(** The five ways in which [scanstring] takes a step. *)
Inductive scan_step (s out rest : pystr) : Prop :=
| step_quote :
    s = 34 :: rest -> out = [] -> scan_step s out rest
| step_plain c s1 out' :
    s = c :: s1 -> c <> 34 -> c <> 92 ->
    Decoder.scanstring s1 = Some (out', rest) -> out = c :: out' ->
    scan_step s out rest
| step_named e ch s2 out' :
    s = 92 :: e :: s2 -> Decoder.backslash e = Some ch ->
    Decoder.scanstring s2 = Some (out', rest) -> out = ch :: out' ->
    scan_step s out rest
| step_u a b c d uni s3 out' :
    s = 92 :: 117 :: a :: b :: c :: d :: s3 ->
    Decoder.decode_uXXXX a b c d = Some uni ->
    Decoder.is_high_surrogate uni = false \/ starts_low_escape s3 = false ->
    Decoder.scanstring s3 = Some (out', rest) -> out = uni :: out' ->
    scan_step s out rest
| step_pair a b c d a2 b2 c2 d2 hi lo s4 out' :
    s = 92 :: 117 :: a :: b :: c :: d
        :: 92 :: 117 :: a2 :: b2 :: c2 :: d2 :: s4 ->
    Decoder.decode_uXXXX a b c d = Some hi ->
    Decoder.decode_uXXXX a2 b2 c2 d2 = Some lo ->
    Decoder.is_high_surrogate hi = true ->
    Decoder.is_low_surrogate lo = true ->
    Decoder.scanstring s4 = Some (out', rest) ->
    out = Decoder.join_surrogates hi lo :: out' ->
    scan_step s out rest.

(** The key under which a [set] holds a hashable value: values that
    Python's [==] identifies share it. *)
Inductive pykey :=
| KNone
| KNum (n : Z)
| KStr (s : pystr).

Definition py_key (v : json) : option pykey :=
  match v with
  | JNull => Some KNone
  | JBool true => Some (KNum 1)
  | JBool false => Some (KNum 0)
  | JNum n => Some (KNum n)
  | JStr s => Some (KStr s)
  | JArr _ | JObj _ => None
  end.

(** The lines of [print_summary] for a result dictionary: the heading,
    then one line for every key whose list is not empty. *)
Definition summary_events (d : dict (list pystr)) : list event :=
  Print (10 :: py "[+] Discovered URLs by Category:")
  :: List.map (fun kv => Print (summary_line (fst kv) (snd kv)))
       (List.filter (fun kv => match snd kv with [] => false | _ => true end)
          d).

Definition categorizing_line (n : nat) : event :=
  Print (py "[*] Categorizing " ++ str_of_nat n ++ py " URLs...").

(** A newline or a printable ASCII character. *)
Definition plain_ascii (c : N) : bool :=
  (c =? 10) || ((32 <=? c) && (c <=? 126)).

(** An environment in which no file can be opened for writing. *)
Definition env_read_only (v : http_result) : env :=
  Env (fun _ => v) (fun l => l) (fun _ => false).

(** A string of ASCII characters; on these [upper] is [str.upper]. *)
Definition ascii_text (s : pystr) : bool := forallb (fun c => c <? 128) s.

(** * Properties *)

(** ** The classifier *)

Section Classifier.

Implicit Types (u p cat : pystr) (table : list (pystr * list pystr)).

(** Every pattern of the rule table lies in the modelled fragment. *)
Lemma CATEGORIES_in_fragment :
  Forall (fun entry => Forall (fun p => is_Some (Re.parse p)) (snd entry))
    CATEGORIES.
Proof.
  unfold CATEGORIES.
  repeat (constructor; simpl); vm_compute; eauto.
Qed.

Lemma any_pattern_true patterns u :
  any_pattern patterns u = true <->
  exists p, p ∈ patterns /\ Re.search p u = true.
Proof.
  induction patterns as [|q qs IH]; simpl.
  - split; [discriminate | intros (p & Hin & _); inversion Hin].
  - destruct (Re.search q u) eqn:Hq.
    + split; [intros _; exists q; split; [left | done] | done].
    + rewrite IH. split.
      * intros (p & Hin & Hp). exists p. split; [by right | done].
      * intros (p & Hin & Hp). apply elem_of_cons in Hin as [-> | Hin].
        -- congruence.
        -- eauto.
Qed.

Lemma any_pattern_false patterns u :
  any_pattern patterns u = false <->
  forall p, p ∈ patterns -> Re.search p u = false.
Proof.
  split.
  - intros Hnone p Hin. destruct (Re.search p u) eqn:Hp; [ | done].
    assert (any_pattern patterns u = true) by (apply any_pattern_true; eauto).
    congruence.
  - intros Hall. destruct (any_pattern patterns u) eqn:Hany; [ | done].
    apply any_pattern_true in Hany as (p & Hin & Hp).
    rewrite (Hall p Hin) in Hp. discriminate.
Qed.

(** The loop skips the entries that do not match. *)
Lemma categorize_in_skip before table u :
  (forall c ps, (c, ps) ∈ before -> any_pattern ps u = false) ->
  categorize_in (before ++ table) u = categorize_in table u.
Proof.
  induction before as [|[c ps] before IH]; intros Hbefore; simpl; [done | ].
  rewrite (Hbefore c ps) by left.
  apply IH. intros c' ps' Hin. apply (Hbefore c' ps'). by right.
Qed.

(** The value of [categorize_in] is a key of the table or the fallback. *)
Lemma categorize_in_range table u :
  categorize_in table u ∈ List.map fst table ++ [other].
Proof.
  induction table as [|[c ps] table IH]; simpl.
  - left.
  - destruct (any_pattern ps u); [left | by right].
Qed.

(** A decision procedure for the side conditions on concrete inputs. *)
Lemma no_match_by_evaluation table u :
  forallb (fun entry => negb (any_pattern (snd entry) u)) table = true ->
  forall c ps p, (c, ps) ∈ table -> p ∈ ps -> Re.search p u = false.
Proof.
  intros Hall c ps p Hin Hp.
  rewrite forallb_forall in Hall.
  specialize (Hall (c, ps)). simpl in Hall.
  apply list_elem_of_In in Hin. apply Hall in Hin.
  apply negb_true_iff in Hin.
  by apply (proj1 (any_pattern_false ps u) Hin).
Qed.

(** *** The matcher finds exactly the matches *)

Lemma match_here_spec (r : Re.regex) :
  forall s (k : pystr -> bool),
    Re.match_here r s k = true <->
    exists rest, derives r s rest /\ k rest = true.
Proof.
  induction r as [|c|items| |r1 IH1 r2 IH2|r1 IH1 r2 IH2]; intros s k; simpl.
  - split.
    + intros Hk. exists s. split; [constructor | done].
    + intros (rest & Hd & Hk). by inversion Hd; subst.
  - destruct s as [|x s].
    + split; [discriminate | ]. intros (rest & Hd & _). inversion Hd.
    + rewrite andb_true_iff. split.
      * intros [Hx Hk]. exists s. split; [by constructor | done].
      * intros (rest & Hd & Hk). by inversion Hd; subst.
  - destruct s as [|x s].
    + split; [discriminate | ]. intros (rest & Hd & _). inversion Hd.
    + rewrite andb_true_iff. split.
      * intros [Hx Hk]. exists s. split; [by constructor | done].
      * intros (rest & Hd & Hk). by inversion Hd; subst.
  - rewrite andb_true_iff. split.
    + intros [He Hk]. exists s. split; [by constructor | done].
    + intros (rest & Hd & Hk). by inversion Hd; subst.
  - rewrite IH1. split.
    + intros (s1 & Hd1 & Hk). apply IH2 in Hk as (s2 & Hd2 & Hk).
      exists s2. split; [by econstructor | done].
    + intros (rest & Hd & Hk). inversion Hd; subst.
      eexists. split; [eassumption | ]. apply IH2. eauto.
  - rewrite orb_true_iff, IH1, IH2. split.
    + intros [(rest & Hd & Hk) | (rest & Hd & Hk)]; exists rest;
        (split; [ | done]); [by apply derives_alt_l | by apply derives_alt_r].
    + intros (rest & Hd & Hk). inversion Hd; subst; [left | right]; eauto.
Qed.

(** [search_regex] is an unanchored search: it answers [true] exactly
    when the pattern matches at some position of the string. *)
Lemma search_regex_spec (r : Re.regex) s :
  Re.search_regex r s = true <->
  exists before matched_on rest,
    s = before ++ matched_on /\ derives r matched_on rest.
Proof.
  induction s as [|x s IH]; simpl.
  - rewrite orb_false_r, match_here_spec. split.
    + intros (rest & Hd & _). by exists [], [], rest.
    + intros (before & m & rest & Hs & Hd).
      symmetry in Hs. apply app_eq_nil in Hs as [-> ->]. eauto.
  - rewrite orb_true_iff, match_here_spec, IH. split.
    + intros [(rest & Hd & _) | (before & m & rest & -> & Hd)].
      * by exists [], (x :: s), rest.
      * by exists (x :: before), m, rest.
    + intros (before & m & rest & Hs & Hd).
      destruct before as [|y before]; simpl in Hs.
      * left. subst m. eauto.
      * right. injection Hs as -> ->. eauto.
Qed.

End Classifier.

(** C1: a URL that matches a pattern of category [cat] and no pattern of
    any category declared before [cat] in the rule table is classified as
    [cat]. *)
Theorem categorize_url_first_matching_category
    (u cat : pystr) (patterns : list pystr)
    (before after : list (pystr * list pystr)) :
  CATEGORIES = before ++ (cat, patterns) :: after ->
  (exists p, p ∈ patterns /\ Re.search p u = true) ->
  (forall c ps p, (c, ps) ∈ before -> p ∈ ps -> Re.search p u = false) ->
  categorize_url u = cat.
Proof.
  intros Htable Hmatch Hbefore.
  unfold categorize_url. rewrite Htable.
  rewrite categorize_in_skip.
  - simpl. apply any_pattern_true in Hmatch. by rewrite Hmatch.
  - intros c ps Hin. apply any_pattern_false. intros p Hp.
    by apply (Hbefore c ps p).
Qed.

Lemma categorize_url_first_matching_category_witness :
  categorize_url (py "http://x.com/wp-admin/login.php") = py "admin".
Proof.
  apply (categorize_url_first_matching_category
           (py "http://x.com/wp-admin/login.php") (py "admin")
           [py "admin"; py "dashboard"; py "login"; py "wp-admin"]
           (take 2 CATEGORIES) (drop 3 CATEGORIES)).
  - reflexivity.
  - exists (py "admin"). split; [left | vm_compute; reflexivity].
  - apply no_match_by_evaluation. vm_compute. reflexivity.
Defined.

(** C2: a URL that matches no pattern of any category of the rule table
    is classified as ["other"]. *)
Theorem categorize_url_no_match_is_other (u : pystr) :
  (forall c ps p, (c, ps) ∈ CATEGORIES -> p ∈ ps -> Re.search p u = false) ->
  categorize_url u = py "other".
Proof.
  intros Hnone. unfold categorize_url.
  rewrite <- (app_nil_r CATEGORIES).
  rewrite categorize_in_skip; [reflexivity | ].
  intros c ps Hin. apply any_pattern_false. intros p Hp.
  by apply (Hnone c ps p).
Qed.

Lemma categorize_url_no_match_is_other_witness :
  categorize_url (py "http://x.com/home") = py "other".
Proof.
  apply (categorize_url_no_match_is_other (py "http://x.com/home")).
  apply no_match_by_evaluation. vm_compute. reflexivity.
Defined.

(** C3: ["http://example.com/api/v1/admin"] matches a pattern of [api]
    and a pattern of [admin]; [api] is declared before [admin] and the
    URL is classified as ["api"]. *)
Theorem categorize_url_api_before_admin :
  let u := py "http://example.com/api/v1/admin" in
  Re.search (py "/api/v[0-9]/") u = true
  /\ Re.search (py "admin") u = true
  /\ (exists before between after api_patterns admin_patterns,
        CATEGORIES = before ++ (py "api", api_patterns) :: between
                     ++ (py "admin", admin_patterns) :: after
        /\ py "/api/v[0-9]/" ∈ api_patterns
        /\ py "admin" ∈ admin_patterns)
  /\ categorize_url u = py "api".
Proof.
  cbv zeta. split; [vm_compute; reflexivity | ].
  split; [vm_compute; reflexivity | ].
  split; [ | vm_compute; reflexivity].
  exists (take 1 CATEGORIES), [], (drop 3 CATEGORIES).
  eexists. eexists. split; [reflexivity | ].
  split; left.
Qed.

(** ** What a run leaves behind *)

Section Runs.

Implicit Types (E : env) (w : world) (self : WaybackCrawl).

Lemma written_emit ev w :
  written (emit ev w) = written w ++ written_of [ev].
Proof. unfold written, written_of, emit. simpl. by rewrite omap_app. Qed.

Lemma requests_emit ev w :
  requests (emit ev w) = requests w ++ requests_of [ev].
Proof. unfold requests, requests_of, emit. simpl. by rewrite omap_app. Qed.

Lemma files_emit ev w : files (emit ev w) = files w.
Proof. reflexivity. Qed.

Lemma fetch_urls_files E d w : files (fetch_urls E d w).2 = files w.
Proof. unfold fetch_urls. by destruct (fetch_try E d). Qed.

Lemma fetch_urls_written E d w : written (fetch_urls E d w).2 = written w.
Proof.
  unfold fetch_urls.
  destruct (fetch_try E d); simpl; rewrite ?written_emit; simpl;
    by rewrite ?app_nil_r.
Qed.

Lemma scan_no_urls E self w :
  (fetch_urls E (domain self) (emit (fetching_line (domain self)) w)).1 = [] ->
  scan E self w = (Ok false, self, world_no_urls E (domain self) w).
Proof.
  unfold scan, world_no_urls.
  destruct (fetch_urls _ _ _) as [urls w2]. simpl. by intros ->.
Qed.

Lemma scan_files E self w : files (scan E self w).2 = files w.
Proof.
  unfold scan.
  pose proof (fetch_urls_files E (domain self)
                (emit (fetching_line (domain self)) w)) as Hf.
  destruct (fetch_urls _ _ _) as [urls w2]. simpl in Hf.
  destruct urls as [|u urls]; [done | ].
  by destruct (classify_all _ _) as [[?|?] ?].
Qed.

Lemma scan_written E self w : written (scan E self w).2 = written w.
Proof.
  unfold scan.
  pose proof (fetch_urls_written E (domain self)
                (emit (fetching_line (domain self)) w)) as Hf.
  rewrite written_emit in Hf. simpl in Hf.
  rewrite app_nil_r in Hf.
  destruct (fetch_urls _ _ _) as [urls w2]. simpl in Hf.
  destruct urls as [|u urls].
  - simpl. rewrite written_emit. simpl. by rewrite app_nil_r.
  - destruct (classify_all _ _) as [[?|?] ?]; simpl;
      rewrite written_emit; simpl; by rewrite app_nil_r.
Qed.

Lemma startswith_spec (s prefix : pystr) :
  startswith s prefix = true <-> exists t, s = prefix ++ t.
Proof.
  revert s. induction prefix as [|p prefix IH]; intros s; simpl.
  - split; eauto.
  - destruct s as [|c s]; simpl.
    + split; [discriminate | intros [t Ht]; discriminate].
    + rewrite andb_true_iff, N.eqb_eq, IH. split.
      * intros [-> [t ->]]. eauto.
      * intros [t Ht]. injection Ht as -> ->. eauto.
Qed.

Lemma split_head sep s :
  exists pieces, split sep s = before_first sep s :: pieces.
Proof.
  induction s as [|c s [pieces IH]]; simpl; [eauto | ].
  destruct (c =? sep); [eauto | ]. rewrite IH. eauto.
Qed.

Lemma split_cons_sep sep pre rest :
  sep ∉ pre -> split sep (pre ++ sep :: rest) = pre :: split sep rest.
Proof.
  induction pre as [|c pre IH]; intros Hnot; simpl.
  - by rewrite N.eqb_refl.
  - apply not_elem_of_cons in Hnot as [Hc Hpre].
    destruct (N.eqb_spec c sep) as [->|_]; [done | ].
    by rewrite (IH Hpre).
Qed.

Lemma before_first_app sep name dropped :
  sep ∉ name -> before_first sep (name ++ sep :: dropped) = name.
Proof.
  induction name as [|c name IH]; intros Hnot; simpl.
  - by rewrite N.eqb_refl.
  - apply not_elem_of_cons in Hnot as [Hc Hname].
    destruct (N.eqb_spec c sep) as [->|_]; [done | ].
    by rewrite (IH Hname).
Qed.

Lemma before_first_no_sep sep s : sep ∉ s -> before_first sep s = s.
Proof.
  induction s as [|c s IH]; intros Hnot; simpl; [done | ].
  apply not_elem_of_cons in Hnot as [Hc Hs].
  destruct (N.eqb_spec c sep) as [->|_]; [done | ].
  by rewrite (IH Hs).
Qed.

Lemma before_first_free sep s : sep ∉ before_first sep s.
Proof.
  induction s as [|c s IH]; simpl; [apply not_elem_of_nil | ].
  destruct (N.eqb_spec c sep) as [->|Hne]; [apply not_elem_of_nil | ].
  apply not_elem_of_cons. split; [congruence | done].
Qed.

Lemma output_file_option path prog d rest :
  output_file (prog :: d :: (py "--output=" ++ path) :: rest)
  = Ok (before_first 61 path).
Proof.
  unfold output_file.
  assert (startswith (py "--output=" ++ path) (py "--output=") = true)
    as -> by (apply startswith_spec; eauto).
  change (py "--output=" ++ path) with (py "--output" ++ 61 :: path).
  rewrite split_cons_sep
    by (apply (bool_decide_unpack (61 ∉ py "--output")); vm_compute; exact I).
  by destruct (split_head 61 path) as [pieces ->].
Qed.

Lemma output_file_total argv : exists out, output_file argv = Ok out.
Proof.
  destruct argv as [|prog [|d [|arg2 rest]]]; try (simpl; eauto; fail).
  destruct (startswith arg2 (py "--output=")) eqn:Hs.
  - apply startswith_spec in Hs as [path ->].
    rewrite output_file_option. eauto.
  - unfold output_file. rewrite Hs. eauto.
Qed.

(** The five ways in which a run with a domain argument ends. *)
Lemma main_run E prog d args w :
  exists out, output_file (prog :: d :: args) = Ok out /\
    main E (prog :: d :: args) w =
      match scan E (init d) w with
      | (Raise e, _, w1) => (Uncaught e, w1)
      | (Ok false, _, w1) => (Finished, w1)
      | (Ok true, scanner, w1) =>
          if can_open E out then (Finished, world_saved scanner out w1)
          else (Uncaught OSError, w1)
      end.
Proof.
  destruct (output_file_total (prog :: d :: args)) as [out Hout].
  exists out. split; [done | ].
  unfold main. rewrite Hout.
  destruct (scan E (init d) w) as [[[[|]|e] scanner] w1]; try done.
  unfold save_results, world_saved. by destruct (can_open E out).
Qed.

Lemma summary_lines_files d w : files (summary_lines d w) = files w.
Proof.
  revert w. induction d as [|[cat urls] d IH]; intros w; simpl; [done | ].
  destruct urls; [apply IH | by rewrite IH].
Qed.

Lemma summary_lines_written d w : written (summary_lines d w) = written w.
Proof.
  revert w. induction d as [|[cat urls] d IH]; intros w; simpl; [done | ].
  destruct urls; [apply IH | ].
  rewrite IH, written_emit. simpl. by rewrite app_nil_r.
Qed.

Lemma world_saved_files self out w :
  files (world_saved self out w)
  = <[out := Encoder.dumps (results self)]> (files w).
Proof. unfold world_saved, print_summary. by rewrite summary_lines_files. Qed.

Lemma world_saved_written self out w :
  written (world_saved self out w)
  = written w ++ [(out, Encoder.dumps (results self))].
Proof.
  unfold world_saved, print_summary.
  rewrite summary_lines_written, !written_emit. simpl.
  rewrite !app_nil_r. unfold written, written_of. simpl.
  by rewrite omap_app.
Qed.

End Runs.

(** ** The command line *)

Lemma env_answering_ok (v : http_result) : env_ok (env_answering v).
Proof. intros l. reflexivity. Qed.

(** C9: without a domain argument the program prints the usage message
    and exits with code 1; it makes no request, classifies nothing and
    writes no file. *)
Theorem main_without_domain_exits_1
    (E : env) (argv : list pystr) (w : world) :
  (length argv < 2)%nat ->
  main E argv w = (Exit 1, emit (Print usage) w)
  /\ requests (main E argv w).2 = requests w
  /\ written (main E argv w).2 = written w
  /\ files (main E argv w).2 = files w.
Proof.
  intros Hlen.
  assert (main E argv w = (Exit 1, emit (Print usage) w)) as ->.
  { destruct argv as [|prog [|d args]]; [done | done | simpl in Hlen; lia]. }
  simpl. rewrite requests_emit, written_emit. simpl.
  by rewrite !app_nil_r.
Qed.

Lemma main_without_domain_exits_1_witness :
  main (env_answering Transport_error) [py "waybackcrawl.py"] empty_world
  = (Exit 1, emit (Print usage) empty_world).
Proof.
  apply (main_without_domain_exits_1 (env_answering Transport_error)
           [py "waybackcrawl.py"] empty_world).
  simpl. lia.
Defined.

Lemma before_first_decompose sep s :
  s = before_first sep s
  \/ exists dropped, s = before_first sep s ++ sep :: dropped.
Proof.
  induction s as [|c s IH]; simpl; [by left | ].
  destruct (N.eqb_spec c sep) as [->|Hne].
  - right. by exists s.
  - destruct IH as [IH | [dropped IH]].
    + left. by rewrite <- IH.
    + right. exists dropped. simpl. by rewrite <- IH.
Qed.

Lemma main_written_path (E : env) (prog d : pystr) (args : list pystr)
    (w : world) (out : pystr) :
  output_file (prog :: d :: args) = Ok out ->
  written (main E (prog :: d :: args) w).2 = written w
  \/ exists text,
       written (main E (prog :: d :: args) w).2 = written w ++ [(out, text)].
Proof.
  intros Hout.
  destruct (main_run E prog d args w) as (out' & Hout' & ->).
  rewrite Hout in Hout'. injection Hout' as <-.
  pose proof (scan_written E (init d) w) as Hw.
  destruct (scan E (init d) w) as [[[[|]|e] scanner] w1]; simpl in *; eauto.
  destruct (can_open E out); simpl; eauto.
  right. eexists. by rewrite world_saved_written, Hw.
Qed.

(** The path ["a=b.json"] is cut to ["a"]. *)
Example output_file_a_equals_b :
  output_file [py "waybackcrawl.py"; py "x.com"; py "--output=a=b.json"]
  = Ok (py "a").
Proof. vm_compute. reflexivity. Qed.

(** ** [fetch_urls] *)

Section Fetch.

Implicit Types (E : env) (w : world) (x y : json) (seen : list json).

Lemma py_eqb_refl x : hashable x = true -> py_eqb x x = true.
Proof.
  destruct x as [|[|]|n|s|?|?]; simpl; try done.
  - intros _. apply Z.eqb_refl.
  - intros _. by apply bool_decide_eq_true_2.
Qed.

Lemma py_eqb_str s y : py_eqb (JStr s) y = true <-> y = JStr s.
Proof.
  destruct y as [|[|]|n|t|?|?]; simpl; try (split; [discriminate | done]).
  rewrite bool_decide_eq_true. split; [by intros -> | by intros [= ->]].
Qed.

Lemma existsb_py_eqb_fresh x seen :
  hashable x = true -> existsb (py_eqb x) seen = false -> x ∉ seen.
Proof.
  intros Hx Hnone Hin.
  assert (existsb (py_eqb x) seen = true) as Hsome; [ | congruence].
  apply existsb_exists. exists x. split.
  - by apply list_elem_of_In.
  - by apply py_eqb_refl.
Qed.

Lemma existsb_py_eqb_str s seen :
  existsb (py_eqb (JStr s)) seen = true <-> JStr s ∈ seen.
Proof.
  rewrite existsb_exists. split.
  - intros (y & Hin & Hy). apply py_eqb_str in Hy as ->.
    by apply list_elem_of_In.
  - intros Hin. exists (JStr s). split.
    + by apply list_elem_of_In.
    + by apply py_eqb_str.
Qed.

Lemma set_add_NoDup seen x seen' :
  NoDup seen -> set_add seen x = Ok seen' -> NoDup seen'.
Proof.
  unfold set_add. intros Hnd.
  destruct (hashable x) eqn:Hx; [ | discriminate].
  destruct (existsb (py_eqb x) seen) eqn:Hex; intros [= <-]; [done | ].
  apply NoDup_app. split; [done | ]. split.
  - intros y Hy Hy'. apply list_elem_of_singleton in Hy' as ->.
    by apply (existsb_py_eqb_fresh x seen).
  - apply NoDup_singleton.
Qed.

Lemma set_of_firsts_NoDup rows seen out :
  NoDup seen -> set_of_firsts rows seen = Ok out -> NoDup out.
Proof.
  revert seen. induction rows as [|row rows IH]; intros seen Hnd; simpl.
  - by intros [= <-].
  - destruct (index_0 row) as [x|e]; [ | discriminate]. simpl.
    destruct (set_add seen x) as [seen'|e] eqn:Hadd; [ | discriminate].
    simpl. apply IH. by apply (set_add_NoDup seen x).
Qed.

(** Whatever the archive answers, the fetched list has no duplicates. *)
Lemma fetch_urls_NoDup E d w : env_ok E -> NoDup (fetch_urls E d w).1.
Proof.
  intros HE. unfold fetch_urls.
  destruct (fetch_try E d) as [urls|e] eqn:Htry; simpl; [ | apply NoDup_nil_2].
  unfold fetch_try in Htry.
  destruct (http E (api_url d)) as [| |v]; try discriminate.
  destruct (slice_from_1 v) as [sliced|?]; [ | discriminate]. simpl in Htry.
  destruct (iterate sliced) as [rows|?]; [ | discriminate]. simpl in Htry.
  destruct (set_of_firsts rows []) as [s|?] eqn:Hs; [ | discriminate].
  simpl in Htry. injection Htry as <-.
  rewrite (HE s). apply (set_of_firsts_NoDup rows [] s); [ | done].
  apply NoDup_nil_2.
Qed.

(** On rows of the expected shape the set is built without an
    exception and holds exactly the first elements. *)
Lemma set_of_firsts_rows (rows : list (pystr * list json)) seen :
  exists out,
    set_of_firsts (List.map row_of rows) seen = Ok out
    /\ forall x, x ∈ out <-> x ∈ seen \/ exists r, r ∈ rows /\ x = JStr r.1.
Proof.
  revert seen. induction rows as [|r rows IH]; intros seen; simpl.
  - exists seen. split; [done | ]. intros x. split; [by left | ].
    intros [H | (r & Hr & _)]; [done | inversion Hr].
  - unfold set_add. simpl.
    destruct (existsb (py_eqb (JStr r.1)) seen) eqn:Hex.
    + destruct (IH seen) as (out & Hout & Hmem).
      exists out. split; [done | ]. intros x. rewrite Hmem.
      apply existsb_py_eqb_str in Hex. split.
      * intros [H | (r' & Hr' & ->)]; [by left | ].
        right. exists r'. split; [by right | done].
      * intros [H | (r' & Hr' & ->)]; [by left | ].
        apply elem_of_cons in Hr' as [-> | Hr']; [by left | ].
        right. eauto.
    + destruct (IH (seen ++ [JStr r.1])) as (out & Hout & Hmem).
      exists out. split; [done | ]. intros x. rewrite Hmem.
      rewrite elem_of_app, list_elem_of_singleton. split.
      * intros [[H | ->] | (r' & Hr' & ->)]; [by left | | ].
        -- right. exists r. split; [left | done].
        -- right. exists r'. split; [by right | done].
      * intros [H | (r' & Hr' & ->)]; [by left; left | ].
        apply elem_of_cons in Hr' as [-> | Hr']; [by left; right | ].
        right. eauto.
Qed.

Lemma fetch_urls_rows E d w header rows :
  env_ok E ->
  http E (api_url d) = Body_json (archive_response header rows) ->
  forall x, x ∈ (fetch_urls E d w).1 <-> exists r, r ∈ rows /\ x = JStr r.1.
Proof.
  intros HE Hhttp x. unfold fetch_urls, fetch_try. rewrite Hhttp. simpl.
  destruct (set_of_firsts_rows rows []) as (out & -> & Hmem). simpl.
  rewrite (HE out), Hmem. split; [ | by right].
  intros [H | H]; [inversion H | done].
Qed.

End Fetch.

(** C4: on a response of the expected shape [fetch_urls] skips the header
    row, takes the first element of every other row, and returns these
    URLs without duplicates, however often a URL is repeated; rows given
    in another order yield the same URLs. *)
Theorem fetch_urls_deduplicates
    (E : env) (d : pystr) (w : world) (header : json)
    (rows : list (pystr * list json)) :
  env_ok E ->
  http E (api_url d) = Body_json (archive_response header rows) ->
  NoDup (fetch_urls E d w).1
  /\ (forall x, x ∈ (fetch_urls E d w).1 <-> exists r, r ∈ rows /\ x = JStr r.1)
  /\ (forall E' header' rows',
        env_ok E' -> rows' ≡ₚ rows ->
        http E' (api_url d) = Body_json (archive_response header' rows') ->
        (fetch_urls E' d w).1 ≡ₚ (fetch_urls E d w).1).
Proof.
  intros HE Hhttp.
  split; [by apply fetch_urls_NoDup | ].
  split; [by apply (fetch_urls_rows E d w header rows) | ].
  intros E' header' rows' HE' Hperm Hhttp'.
  apply NoDup_Permutation; [by apply fetch_urls_NoDup .. | ].
  intros x.
  rewrite (fetch_urls_rows E' d w header' rows' HE' Hhttp').
  rewrite (fetch_urls_rows E d w header rows HE Hhttp).
  split; intros (r & Hr & ->); exists r; split; try done.
  - by rewrite <- Hperm.
  - by rewrite Hperm.
Qed.

Lemma fetch_urls_deduplicates_witness :
  let rows := [ (py "http://x.com/a", []); (py "http://x.com/b", [JNum 7]);
                (py "http://x.com/a", []) ] in
  let E := env_answering
             (Body_json (archive_response (JArr [JStr (py "original")]) rows)) in
  (fetch_urls E (py "x.com") empty_world).1
  = [JStr (py "http://x.com/a"); JStr (py "http://x.com/b")]
  /\ NoDup (fetch_urls E (py "x.com") empty_world).1.
Proof.
  cbv zeta. split; [vm_compute; reflexivity | ].
  eapply (fetch_urls_deduplicates _ (py "x.com") empty_world).
  - apply env_answering_ok.
  - reflexivity.
Defined.

(** ** [scan] *)

Section Scan.

Implicit Types (E : env) (w : world) (res : dict (list pystr)).

(** The ways in which the fetch stage ends with nothing. *)
Lemma fetch_urls_transport_error E d w :
  http E (api_url d) = Transport_error -> (fetch_urls E d w).1 = [].
Proof. intros H. unfold fetch_urls, fetch_try. by rewrite H. Qed.

Lemma fetch_urls_not_json E d w :
  http E (api_url d) = Body_not_json -> (fetch_urls E d w).1 = [].
Proof. intros H. unfold fetch_urls, fetch_try. by rewrite H. Qed.

Lemma fetch_urls_exception E d w e :
  fetch_try E d = Raise e -> (fetch_urls E d w).1 = [].
Proof. intros H. unfold fetch_urls. by rewrite H. Qed.

Lemma fetch_urls_header_only E d w rows :
  env_ok E ->
  http E (api_url d) = Body_json (JArr rows) ->
  (length rows <= 1)%nat ->
  (fetch_urls E d w).1 = [].
Proof.
  intros HE H Hlen. unfold fetch_urls, fetch_try. rewrite H.
  assert (tail rows = []) as Htl.
  { destruct rows as [|? [|? ?]]; simpl in *; [done | done | lia]. }
  simpl. rewrite Htl. simpl.
  apply Permutation_nil_r. apply HE.
Qed.

(** A response that is not a list of rows: a number has no slice. *)
Example fetch_urls_malformed E d w n :
  http E (api_url d) = Body_json (JNum n) -> (fetch_urls E d w).1 = [].
Proof. intros H. unfold fetch_urls, fetch_try. by rewrite H. Qed.

(** A row that has no first element. *)
Example fetch_urls_malformed_row E d w header :
  http E (api_url d) = Body_json (JArr [header; JNull]) ->
  (fetch_urls E d w).1 = [].
Proof. intros H. unfold fetch_urls, fetch_try. by rewrite H. Qed.

(** *** The classification loop *)

Lemma dict_get_set_map {V} (d : dict V) k v (f : V -> V) :
  NoDup (List.map fst d) ->
  dict_get d k = Some v ->
  dict_set d k (f v)
  = List.map (fun kv => (kv.1, if bool_decide (kv.1 = k) then f kv.2
                               else kv.2)) d.
Proof.
  induction d as [|[k' v'] d IH]; simpl; [done | ].
  intros Hnd. apply NoDup_cons in Hnd as [Hk' Hnd].
  destruct (bool_decide (k' = k)) eqn:Hk.
  - intros [= ->]. f_equal.
    apply bool_decide_eq_true in Hk as <-.
    clear IH. induction d as [|[k'' v''] d IH']; simpl; [done | ].
    apply not_elem_of_cons in Hk' as [Hne Hk']. simpl in Hne.
    rewrite bool_decide_eq_false_2 by done.
    apply NoDup_cons in Hnd as [_ Hnd].
    by rewrite <- (IH' Hk' Hnd).
  - intros Hget. by rewrite (IH Hnd Hget).
Qed.

Lemma dict_get_map_values {V} (d : dict V) k (g : pystr -> V -> V) :
  dict_get (List.map (fun kv => (kv.1, g kv.1 kv.2)) d) k
  = g k <$> dict_get d k.
Proof.
  induction d as [|[k' v'] d IH]; simpl; [done | ].
  destruct (bool_decide (k' = k)) eqn:Hk; [ | done].
  apply bool_decide_eq_true in Hk as ->. done.
Qed.

(** On strings the loop never fails when every category is a key, and
    it appends to each key the URLs of its bucket, in order. *)
Lemma classify_all_strings (urls : list pystr) res :
  NoDup (List.map fst res) ->
  (forall u, is_Some (dict_get res (categorize_url u))) ->
  classify_all (List.map JStr urls) res
  = (Ok tt, List.map (fun kv => (kv.1, kv.2 ++ bucket kv.1 urls)) res).
Proof.
  revert res. induction urls as [|u urls IH]; intros res Hnd Hkeys; simpl.
  - f_equal. clear. induction res as [|[k l] res IHres]; simpl; [done | ].
    unfold bucket in *. rewrite filter_nil, app_nil_r. by rewrite <- IHres.
  - unfold dict_append.
    destruct (Hkeys u) as [l Hl]. rewrite Hl.
    rewrite (dict_get_set_map res (categorize_url u) l (fun l => l ++ [u]))
      by done.
    rewrite IH.
    + f_equal. rewrite map_map. apply map_ext. intros [k l']. simpl.
      f_equal. unfold bucket. rewrite filter_cons.
      destruct (bool_decide (k = categorize_url u)) eqn:Hk.
      * apply bool_decide_eq_true in Hk.
        rewrite decide_True by done. by rewrite <- app_assoc.
      * apply bool_decide_eq_false in Hk.
        by rewrite decide_False by congruence.
    + rewrite map_map. simpl. done.
    + intros u'.
      pose proof (dict_get_map_values res (categorize_url u')
                    (fun k v => if bool_decide (k = categorize_url u)
                                then v ++ [u] else v)) as Hget.
      cbv beta in Hget. rewrite Hget.
      destruct (Hkeys u') as [l' ->]. simpl. eauto.
Qed.

Lemma strings_map_url_text (l : list json) :
  Forall (fun x => JStr (url_text x) = x) l ->
  l = List.map JStr (List.map url_text l).
Proof.
  induction 1 as [|x l Hx Hall IH]; simpl; [done | ].
  by rewrite Hx, <- IH.
Qed.

Lemma init_results_keys :
  List.map fst init_results = List.map fst CATEGORIES ++ [other].
Proof. reflexivity. Qed.

Lemma init_results_NoDup : NoDup (List.map fst init_results).
Proof.
  apply (bool_decide_unpack (NoDup (List.map fst init_results))).
  vm_compute. exact I.
Qed.

Lemma dict_get_is_Some {V} (d : dict V) k :
  k ∈ List.map fst d -> is_Some (dict_get d k).
Proof.
  induction d as [|[k' v] d IH]; simpl; [by intros H; inversion H | ].
  intros Hin. destruct (bool_decide (k' = k)) eqn:Hk; [eauto | ].
  apply bool_decide_eq_false in Hk.
  apply elem_of_cons in Hin as [<- | Hin]; [done | by apply IH].
Qed.

Lemma init_results_has_category u :
  is_Some (dict_get init_results (categorize_url u)).
Proof.
  apply dict_get_is_Some. rewrite init_results_keys.
  apply categorize_in_range.
Qed.

(** The result dictionary after a classification of strings. *)
Lemma classify_all_init (urls : list pystr) :
  classify_all (List.map JStr urls) init_results
  = (Ok tt, List.map (fun kv => (kv.1, bucket kv.1 urls)) init_results).
Proof.
  rewrite classify_all_strings.
  - f_equal.
  - apply init_results_NoDup.
  - apply init_results_has_category.
Qed.

End Scan.

(** C5: when the fetch stage yields no URL, whatever the cause, [scan]
    returns [False] and leaves the result dictionary as it was; the run
    ends without writing a file. *)
Theorem scan_without_urls_writes_nothing
    (E : env) (self : WaybackCrawl) (prog : pystr) (args : list pystr)
    (w : world) :
  (fetch_urls E (domain self) (emit (fetching_line (domain self)) w)).1 = [] ->
  scan E self w = (Ok false, self, world_no_urls E (domain self) w)
  /\ main E (prog :: domain self :: args) w
     = (Finished, world_no_urls E (domain self) w)
  /\ written (world_no_urls E (domain self) w) = written w
  /\ files (world_no_urls E (domain self) w) = files w.
Proof.
  intros Hempty.
  pose proof (scan_no_urls E self w Hempty) as Hscan.
  split; [done | ].
  split.
  - destruct (main_run E prog (domain self) args w) as (out & _ & ->).
    by rewrite (scan_no_urls E (init (domain self)) w Hempty).
  - pose proof (scan_written E self w) as Hw.
    pose proof (scan_files E self w) as Hf.
    rewrite Hscan in Hw, Hf. done.
Qed.

Lemma scan_without_urls_writes_nothing_witness :
  let E := env_answering Transport_error in
  main E [py "waybackcrawl.py"; py "x.com"] empty_world
  = (Finished, world_no_urls E (py "x.com") empty_world)
  /\ files (world_no_urls E (py "x.com") empty_world) = ∅.
Proof.
  cbv zeta.
  destruct (scan_without_urls_writes_nothing
              (env_answering Transport_error) (init (py "x.com"))
              (py "waybackcrawl.py") [] empty_world)
    as (_ & Hmain & _ & Hfiles).
  - vm_compute. reflexivity.
  - split; [exact Hmain | exact Hfiles].
Defined.

(** C7: on the rows of the end-to-end example the classification pass
    puts exactly one URL into each of [js], [api], [admin], [redirects],
    [configs] and [other], in whatever order the set is iterated. *)
Theorem scan_example_one_url_per_category
    (E : env) (d : pystr) (w : world) :
  env_ok E ->
  http E (api_url d) = Body_json example_rows ->
  exists w', scan E (init d) w = (Ok true, Scanner d example_results, w').
Proof.
  intros HE Hhttp.
  set (urls7 := List.map snd (List.map (fun kv => (kv.1, hd [] kv.2))
                                example_results)).
  assert (exists urls, (fetch_urls E d (emit (fetching_line d) w)).1
                       = List.map JStr urls /\ urls ≡ₚ urls7)
    as (urls & Hfetch & Hperm).
  { unfold fetch_urls, fetch_try. rewrite Hhttp.
    change (slice_from_1 example_rows ≫= _)
      with (Ok (set_iter E (List.map JStr urls7)) : result (list json)).
    simpl. exists (List.map url_text (set_iter E (List.map JStr urls7))).
    pose proof (HE (List.map JStr urls7)) as Hp. split.
    - apply (strings_map_url_text (set_iter E (List.map JStr urls7))).
      rewrite Hp. by repeat constructor.
    - change urls7 with (List.map url_text (List.map JStr urls7)) at 2.
      by apply Permutation_map. }
  unfold scan. cbn [init domain results].
  destruct (fetch_urls E d (emit (fetching_line d) w)) as [fetched w2].
  simpl in Hfetch. subst fetched.
  destruct urls as [|u urls].
  { apply Permutation_nil_l in Hperm. discriminate. }
  change (JStr u :: List.map JStr urls) with (List.map JStr (u :: urls)).
  cbn iota. rewrite classify_all_init.
  eexists. f_equal. f_equal. f_equal.
  assert (forall cat x, bucket cat urls7 = [x] -> bucket cat (u :: urls) = [x])
    as Hbucket.
  { intros cat x Hx. apply Permutation_singleton_r. rewrite <- Hx.
    unfold bucket. by rewrite Hperm. }
  unfold init_results, example_results. simpl.
  repeat (f_equal; [f_equal; apply Hbucket; vm_compute; reflexivity | ]).
  f_equal. f_equal. apply Hbucket. vm_compute. reflexivity.
Qed.

Lemma scan_example_one_url_per_category_witness :
  exists w',
    scan (env_answering (Body_json example_rows)) (init (py "x.com"))
      empty_world
    = (Ok true, Scanner (py "x.com") example_results, w').
Proof.
  apply (scan_example_one_url_per_category
           (env_answering (Body_json example_rows)) (py "x.com") empty_world).
  - apply env_answering_ok.
  - reflexivity.
Defined.

(** ** Writing the results and reading them back *)

Section Arithmetic.

Lemma lor_high_low (a b k : N) :
  b < 2 ^ k -> N.lor (a * 2 ^ k) b = a * 2 ^ k + b.
Proof.
  intros Hb.
  assert (N.land (a * 2 ^ k) b = 0) as Hland.
  { apply N.bits_inj. intros m. rewrite N.land_spec, N.bits_0.
    destruct (N.lt_ge_cases m k) as [Hm | Hm].
    - by rewrite N.mul_pow2_bits_low.
    - rewrite <- (N.mod_small b (2 ^ k)) by done.
      rewrite N.mod_pow2_bits_high by done. apply andb_false_r. }
  by rewrite N.add_nocarry_lxor, N.lxor_lor.
Qed.

Lemma high_surrogate_of (n : N) :
  n < 1048576 ->
  N.lor 55296 (N.land (N.shiftr n 10) 1023) = 55296 + n / 1024.
Proof.
  intros Hn.
  change 1023 with (N.ones 10).
  rewrite N.land_ones, N.shiftr_div_pow2.
  change (2 ^ 10) with 1024.
  assert (n / 1024 < 1024) as Hq.
  { apply N.Div0.div_lt_upper_bound. lia. }
  rewrite (N.mod_small _ _ Hq).
  change 55296 with (54 * 2 ^ 10) at 1.
  rewrite lor_high_low by (change (2 ^ 10) with 1024; lia).
  reflexivity.
Qed.

Lemma low_surrogate_of (n : N) :
  N.lor 56320 (N.land n 1023) = 56320 + n mod 1024.
Proof.
  change 1023 with (N.ones 10).
  rewrite N.land_ones. change (2 ^ 10) with 1024.
  assert (n mod 1024 < 1024) as Hr by (apply N.mod_lt; lia).
  change 56320 with (55 * 2 ^ 10) at 1.
  rewrite lor_high_low by (change (2 ^ 10) with 1024; lia).
  reflexivity.
Qed.

Lemma join_surrogates_of (n : N) :
  n < 1048576 ->
  Decoder.join_surrogates (55296 + n / 1024) (56320 + n mod 1024)
  = 65536 + n.
Proof.
  intros Hn. unfold Decoder.join_surrogates.
  rewrite (N.add_comm 55296), (N.add_comm 56320), !N.add_sub.
  rewrite N.shiftl_mul_pow2.
  assert (n mod 1024 < 2 ^ 10) as Hr by (apply N.mod_lt; lia).
  rewrite lor_high_low by done. change (2 ^ 10) with 1024.
  pose proof (N.div_mod n 1024). lia.
Qed.

Lemma hex_value_digit (d : N) :
  d < 16 -> Decoder.hex_value (Encoder.hex_digit d) = Some d.
Proof.
  intros Hd. unfold Decoder.hex_value, Encoder.hex_digit.
  destruct (N.ltb_spec d 10).
  - replace ((48 <=? 48 + d) && (48 + d <=? 57)) with true
      by (symmetry; apply andb_true_iff; split; apply N.leb_le; lia).
    f_equal. lia.
  - replace ((48 <=? 87 + d) && (87 + d <=? 57)) with false
      by (symmetry; apply andb_false_iff; right; apply N.leb_gt; lia).
    replace ((97 <=? 87 + d) && (87 + d <=? 102)) with true
      by (symmetry; apply andb_true_iff; split; apply N.leb_le; lia).
    f_equal. lia.
Qed.

Lemma decode_hex4 (n : N) :
  n < 65536 ->
  Decoder.decode_uXXXX
    (Encoder.hex_digit (n / 4096 mod 16)) (Encoder.hex_digit (n / 256 mod 16))
    (Encoder.hex_digit (n / 16 mod 16)) (Encoder.hex_digit (n mod 16))
  = Some n.
Proof.
  intros Hn. unfold Decoder.decode_uXXXX.
  rewrite !hex_value_digit by (apply N.mod_lt; lia).
  f_equal.
  pose proof (N.div_mod n 16). pose proof (N.div_mod (n / 16) 16).
  pose proof (N.div_mod (n / 256) 16).
  assert (n / 16 / 16 = n / 256) as H256
    by (rewrite N.Div0.div_div; reflexivity).
  assert (n / 256 / 16 = n / 4096) as H4096
    by (rewrite N.Div0.div_div; reflexivity).
  assert (n / 4096 < 16) by (apply N.Div0.div_lt_upper_bound; lia).
  rewrite (N.mod_small (n / 4096) 16) by done.
  rewrite <- H256, <- H4096 in *. lia.
Qed.

End Arithmetic.

Section Strings.

Import Encoder Decoder.

Implicit Types (s rest tail : pystr) (c : N).

(** One step of [scanstring], by the first characters of the text. *)
Lemma scanstring_quote rest : scanstring (34 :: rest) = Some ([], rest).
Proof. reflexivity. Qed.

Lemma scanstring_plain c tail :
  c <> 34 -> c <> 92 -> 32 <= c ->
  scanstring (c :: tail) = cons_char c (scanstring tail).
Proof.
  intros H34 H92 H32. cbn [scanstring].
  destruct (N.eqb_spec c 34); [done | ].
  destruct (N.eqb_spec c 92); [done | ].
  destruct (N.ltb_spec c 32); [lia | done].
Qed.

Lemma scanstring_named e ch tail :
  e <> 117 -> backslash e = Some ch ->
  scanstring (92 :: e :: tail) = cons_char ch (scanstring tail).
Proof.
  intros H117 Hch. cbn [scanstring].
  change (92 =? 34) with false. change (92 =? 92) with true. cbv iota.
  destruct (N.eqb_spec e 117); [done | ]. by rewrite Hch.
Qed.

Lemma scanstring_u_unfold a b c d tail :
  scanstring (92 :: 117 :: a :: b :: c :: d :: tail)
  = match decode_uXXXX a b c d with
    | None => None
    | Some uni =>
        match tail with
        | bs :: u :: a2 :: b2 :: c2 :: d2 :: s4 =>
            if is_high_surrogate uni && (bs =? 92) && (u =? 117)
            then
              match decode_uXXXX a2 b2 c2 d2 with
              | None => None
              | Some uni2 =>
                  if is_low_surrogate uni2
                  then cons_char (join_surrogates uni uni2) (scanstring s4)
                  else cons_char uni (scanstring tail)
              end
            else cons_char uni (scanstring tail)
        | _ => cons_char uni (scanstring tail)
        end
    end.
Proof. reflexivity. Qed.

Lemma scanstring_u a b c d uni tail :
  decode_uXXXX a b c d = Some uni ->
  is_high_surrogate uni = false \/ starts_low_escape tail = false ->
  scanstring (92 :: 117 :: a :: b :: c :: d :: tail)
  = cons_char uni (scanstring tail).
Proof.
  intros Hdec Hplain. rewrite scanstring_u_unfold, Hdec.
  destruct tail as [|bs [|u [|a2 [|b2 [|c2 [|d2 s4]]]]]]; try reflexivity.
  destruct Hplain as [-> | Hlow]; [reflexivity | ].
  unfold starts_low_escape in Hlow.
  destruct (is_high_surrogate uni); [ | reflexivity].
  destruct (bs =? 92); [ | reflexivity].
  destruct (u =? 117); [ | reflexivity].
  cbn [andb] in *.
  destruct (decode_uXXXX a2 b2 c2 d2) as [uni2|]; [ | discriminate].
  by rewrite Hlow.
Qed.

Lemma scanstring_pair a b c d a2 b2 c2 d2 hi lo tail :
  decode_uXXXX a b c d = Some hi ->
  decode_uXXXX a2 b2 c2 d2 = Some lo ->
  is_high_surrogate hi = true -> is_low_surrogate lo = true ->
  scanstring (92 :: 117 :: a :: b :: c :: d
              :: 92 :: 117 :: a2 :: b2 :: c2 :: d2 :: tail)
  = cons_char (join_surrogates hi lo) (scanstring tail).
Proof.
  intros Hhi Hlo Hh Hl. rewrite scanstring_u_unfold, Hhi, Hh.
  change (92 =? 92) with true. change (117 =? 117) with true.
  cbn [andb]. by rewrite Hlo, Hl.
Qed.

(** The escape of a character that is not a low surrogate does not
    look like the escape of one. *)
Lemma starts_low_escape_char c tail :
  c < 1114112 -> is_low_surrogate c = false ->
  starts_low_escape (escape_char c ++ tail) = false.
Proof.
  intros Hc Hlow. unfold escape_char.
  repeat (match goal with
          | |- context [?x =? ?k] => destruct (N.eqb_spec x k); [done | ]
          end).
  destruct ((32 <=? c) && (c <=? 126)) eqn:Hprint.
  - simpl. by destruct (N.eqb_spec c 92).
  - destruct (N.ltb_spec c 65536) as [Hbmp | Hastral].
    + simpl. unfold hex4. by rewrite decode_hex4, Hlow.
    + rewrite high_surrogate_of by lia.
      simpl. unfold hex4.
      assert ((c - 65536) / 1024 < 1024)
        by (apply N.Div0.div_lt_upper_bound; lia).
      rewrite decode_hex4 by lia.
      unfold is_low_surrogate.
      apply andb_false_iff. left. apply N.leb_gt. lia.
Qed.

Lemma starts_low_escape_tail s rest :
  text_safe s = true ->
  match s with d :: _ => is_low_surrogate d = false | [] => True end ->
  starts_low_escape (flat_map escape_char s ++ 34 :: rest) = false.
Proof.
  destruct s as [|d s]; [reflexivity | ].
  intros Hsafe Hd. simpl. rewrite <- app_assoc.
  apply starts_low_escape_char; [ | done].
  simpl in Hsafe. apply andb_true_iff in Hsafe as [Hsafe _].
  apply andb_true_iff in Hsafe as [Hsafe _]. by apply N.ltb_lt.
Qed.

(** The decoder reads back what the encoder wrote. *)
Lemma scanstring_escaped s rest :
  text_safe s = true ->
  scanstring (flat_map escape_char s ++ 34 :: rest) = Some (s, rest).
Proof.
  induction s as [|c s IH]; intros Hsafe; [reflexivity | ].
  pose proof Hsafe as Hsafe'.
  cbn [text_safe] in Hsafe.
  apply andb_true_iff in Hsafe as [Hsafe Hs].
  apply andb_true_iff in Hsafe as [Hc Hpair].
  apply N.ltb_lt in Hc. apply negb_true_iff in Hpair.
  specialize (IH Hs).
  cbn [flat_map]. rewrite <- app_assoc.
  set (tail := flat_map escape_char s ++ 34 :: rest) in *.
  assert (is_high_surrogate c = false \/ starts_low_escape tail = false)
    as Hplain.
  { destruct (is_high_surrogate c) eqn:Hhigh; [right | by left].
    apply starts_low_escape_tail; [done | ].
    destruct s as [|d s']; [done | ].
    by destruct (is_low_surrogate d). }
  unfold escape_char.
  destruct (N.eqb_spec c 34) as [-> | H34];
    [cbn [app]; by rewrite (scanstring_named 34 34), IH | ].
  destruct (N.eqb_spec c 92) as [-> | H92];
    [cbn [app]; by rewrite (scanstring_named 92 92), IH | ].
  destruct (N.eqb_spec c 10) as [-> | H10];
    [cbn [app]; by rewrite (scanstring_named 110 10), IH | ].
  destruct (N.eqb_spec c 13) as [-> | H13];
    [cbn [app]; by rewrite (scanstring_named 114 13), IH | ].
  destruct (N.eqb_spec c 9) as [-> | H9];
    [cbn [app]; by rewrite (scanstring_named 116 9), IH | ].
  destruct (N.eqb_spec c 12) as [-> | H12];
    [cbn [app]; by rewrite (scanstring_named 102 12), IH | ].
  destruct (N.eqb_spec c 8) as [-> | H8];
    [cbn [app]; by rewrite (scanstring_named 98 8), IH | ].
  destruct ((32 <=? c) && (c <=? 126)) eqn:Hprint.
  - apply andb_true_iff in Hprint as [Hlo _]. apply N.leb_le in Hlo.
    cbn [app]. by rewrite scanstring_plain, IH.
  - destruct (N.ltb_spec c 65536) as [Hbmp | Hastral].
    + cbn [u_escape hex4 app].
      by rewrite (scanstring_u _ _ _ _ c tail (decode_hex4 c Hbmp) Hplain), IH.
    + rewrite high_surrogate_of, low_surrogate_of by lia.
      set (n := c - 65536).
      assert (c = 65536 + n) as Hcn by (subst n; lia).
      assert (n < 1048576) as Hn by (subst n; lia).
      clearbody n.
      assert (n / 1024 < 1024) as Hq
        by (apply N.Div0.div_lt_upper_bound; lia).
      assert (n mod 1024 < 1024) as Hr by (apply N.mod_lt; lia).
      cbn [u_escape hex4 app].
      rewrite (scanstring_pair _ _ _ _ _ _ _ _
                 (55296 + n / 1024) (56320 + n mod 1024) tail).
      * rewrite join_surrogates_of, IH by done.
        by rewrite <- Hcn.
      * apply decode_hex4. revert Hq. generalize (n / 1024). clear. lia.
      * apply decode_hex4. revert Hr. generalize (n mod 1024). clear. lia.
      * unfold is_high_surrogate. revert Hq. generalize (n / 1024). clear.
        intros q Hq. apply andb_true_iff; split; apply N.leb_le; lia.
      * unfold is_low_surrogate. revert Hr. generalize (n mod 1024). clear.
        intros r Hr. apply andb_true_iff; split; apply N.leb_le; lia.
Qed.

End Strings.

Section Documents.

Import Encoder Decoder.

Implicit Types (s rest t : pystr) (l : list pystr) (d : dict (list pystr)).

(** One step of the value scanner, by the first character. *)
Lemma scan_once_quote fuel t :
  scan_once (S fuel) (34 :: t)
  = match scanstring t with
    | Some (s, rest) => Some (JStr s, rest)
    | None => None
    end.
Proof. reflexivity. Qed.

Lemma scan_once_bracket fuel t :
  scan_once (S fuel) (91 :: t)
  = match skip_ws t with
    | c :: rest =>
        if c =? 93 then Some (JArr [], rest)
        else elements fuel (skip_ws t) []
    | [] => None
    end.
Proof. reflexivity. Qed.

Lemma scan_once_brace fuel t :
  scan_once (S fuel) (123 :: t)
  = match skip_ws t with
    | c :: rest =>
        if c =? 125 then Some (JObj [], rest)
        else if c =? 34 then members fuel rest []
        else None
    | [] => None
    end.
Proof. reflexivity. Qed.

Lemma elements_unfold fuel t acc :
  elements (S fuel) t acc
  = match scan_once fuel t with
    | Some (value, s1) =>
        match skip_ws s1 with
        | c :: s2 =>
            if c =? 93 then Some (JArr (acc ++ [value]), s2)
            else if c =? 44 then
              elements fuel (skip_ws s2) (acc ++ [value])
            else None
        | [] => None
        end
    | None => None
    end.
Proof. reflexivity. Qed.

Lemma members_unfold fuel t acc :
  members (S fuel) t acc
  = match scanstring t with
    | Some (key, s1) =>
        match skip_ws s1 with
        | c :: s2 =>
            if c =? 58 then
              match scan_once fuel (skip_ws s2) with
              | Some (value, s3) =>
                  match skip_ws s3 with
                  | c' :: s4 =>
                      if c' =? 125
                      then Some (JObj (dict_set acc key value), s4)
                      else if c' =? 44 then
                        match skip_ws s4 with
                        | q :: s5 =>
                            if q =? 34
                            then members fuel s5 (dict_set acc key value)
                            else None
                        | [] => None
                        end
                      else None
                  | [] => None
                  end
              | None => None
              end
            else None
        | [] => None
        end
    | None => None
    end.
Proof. reflexivity. Qed.

Lemma skip_ws_spaces n t : skip_ws (repeat 32 n ++ t) = skip_ws t.
Proof. induction n as [|n IH]; [done | apply IH]. Qed.

Lemma skip_ws_indent level t : skip_ws (newline_indent level ++ t) = skip_ws t.
Proof. unfold newline_indent. cbn [app skip_ws]. apply skip_ws_spaces. Qed.

Lemma skip_ws_stop c t : is_ws c = false -> skip_ws (c :: t) = c :: t.
Proof. intros H. cbn [skip_ws]. by rewrite H. Qed.

Lemma encode_basestring_ascii_app s t :
  encode_basestring_ascii s ++ t = 34 :: flat_map escape_char s ++ 34 :: t.
Proof. unfold encode_basestring_ascii. cbn [app]. by rewrite <- app_assoc. Qed.

Lemma scan_once_string fuel s rest :
  text_safe s = true ->
  scan_once (S fuel) (encode_basestring_ascii s ++ rest) = Some (JStr s, rest).
Proof.
  intros Hs.
  by rewrite encode_basestring_ascii_app, scan_once_quote, scanstring_escaped.
Qed.

(** The elements of a list, from the first one to the closing bracket. *)
Lemma elements_strings l :
  forall x k level acc rest fuel,
    text_safe x = true -> forallb text_safe l = true ->
    (length l + 2 <= fuel)%nat ->
    elements fuel
      (encode_basestring_ascii x
       ++ flat_map (fun y => 44 :: newline_indent k
                              ++ encode_basestring_ascii y) l
       ++ newline_indent level ++ 93 :: rest) acc
    = Some (JArr (acc ++ List.map JStr (x :: l)), rest).
Proof.
  induction l as [|y l IH]; intros x k level acc rest fuel Hx Hl Hfuel.
  - destruct fuel as [|[|fuel]]; [simpl in Hfuel; lia .. | ].
    rewrite elements_unfold, scan_once_string by done.
    cbn [flat_map app]. rewrite skip_ws_indent, skip_ws_stop by done.
    reflexivity.
  - destruct fuel as [|[|fuel]]; [simpl in Hfuel; lia .. | ].
    cbn [forallb] in Hl. apply andb_true_iff in Hl as [Hy Hl].
    rewrite elements_unfold, scan_once_string by done.
    cbn [flat_map app]. rewrite skip_ws_stop by done.
    change (44 =? 93) with false. change (44 =? 44) with true. cbv iota.
    rewrite <- !app_assoc, skip_ws_indent.
    rewrite (encode_basestring_ascii_app y), skip_ws_stop by done.
    rewrite <- (encode_basestring_ascii_app y).
    rewrite (IH y k level (acc ++ [JStr x]) rest (S fuel)); try done.
    + cbn [List.map]. by rewrite <- app_assoc.
    + simpl in Hfuel. simpl. lia.
Qed.

Lemma scan_once_list l level rest fuel :
  forallb text_safe l = true ->
  (length l + 3 <= fuel)%nat ->
  scan_once fuel (iterencode_list l level ++ rest)
  = Some (JArr (List.map JStr l), rest).
Proof.
  intros Hl Hfuel.
  destruct fuel as [|fuel]; [simpl in Hfuel; lia | ].
  destruct l as [|x l].
  - reflexivity.
  - cbn [forallb] in Hl. apply andb_true_iff in Hl as [Hx Hl].
    unfold iterencode_list. cbn [app].
    rewrite scan_once_bracket.
    rewrite <- !app_assoc, skip_ws_indent.
    rewrite (encode_basestring_ascii_app x), skip_ws_stop by done.
    change (34 =? 93) with false. cbv iota.
    rewrite <- (encode_basestring_ascii_app x).
    cbn [app].
    rewrite (elements_strings l x (S level) level [] rest fuel); try done.
    simpl in Hfuel. lia.
Qed.

Lemma fuel_for_cons kv d :
  fuel_for (kv :: d) = (length (snd kv) + 4 + fuel_for d)%nat.
Proof. reflexivity. Qed.

Lemma skip_ws_space t : skip_ws (32 :: t) = skip_ws t.
Proof. reflexivity. Qed.

Lemma skip_ws_list l level t :
  skip_ws (iterencode_list l level ++ t) = iterencode_list l level ++ t.
Proof. destruct l; by apply skip_ws_stop. Qed.

Lemma dict_set_fresh {V} (acc : dict V) k (v : V) :
  k ∉ List.map fst acc -> dict_set acc k v = acc ++ [(k, v)].
Proof.
  induction acc as [|[k' v'] acc IH]; intros Hk; simpl; [done | ].
  simpl in Hk. apply not_elem_of_cons in Hk as [Hne Hk].
  rewrite bool_decide_eq_false_2 by done. by rewrite IH.
Qed.

(** The members of an object, from after the opening quote of the first
    key to the closing brace. *)
Lemma members_results d :
  forall kv k level acc rest fuel,
    results_safe (kv :: d) = true ->
    NoDup (List.map fst acc ++ List.map fst (kv :: d)) ->
    (fuel_for (kv :: d) <= fuel)%nat ->
    members fuel
      (flat_map escape_char (fst kv)
       ++ 34 :: 58 :: 32 :: iterencode_list (snd kv) k
       ++ flat_map (fun kv' => 44 :: newline_indent k
                                ++ encode_member kv' k) d
       ++ newline_indent level ++ 125 :: rest) acc
    = Some (JObj (acc ++ List.map json_of_member (kv :: d)), rest).
Proof.
  induction d as [|kv' d IH]; intros [key l] k level acc rest fuel
    Hsafe Hnd Hfuel.
  - unfold results_safe in Hsafe. cbn [forallb fst snd] in *.
    rewrite andb_true_r in Hsafe. apply andb_true_iff in Hsafe as [Hkey Hl].
    unfold fuel_for in Hfuel. simpl in Hfuel.
    destruct fuel as [|fuel]; [lia | ].
    rewrite members_unfold, scanstring_escaped by done.
    rewrite skip_ws_stop by done.
    change (58 =? 58) with true. cbv iota.
    rewrite skip_ws_space, skip_ws_list.
    cbn [flat_map app].
    rewrite scan_once_list by (done || lia).
    rewrite skip_ws_indent, skip_ws_stop by done.
    change (125 =? 125) with true. cbv iota.
    rewrite dict_set_fresh; [done | ].
    simpl in Hnd. apply NoDup_app in Hnd as (_ & Hnd & _).
    intros Hin. apply (Hnd key Hin). left.
  - unfold results_safe in Hsafe. cbn [forallb fst snd] in *.
    apply andb_true_iff in Hsafe as [Hsafe Hrest].
    apply andb_true_iff in Hsafe as [Hkey Hl].
    rewrite fuel_for_cons in Hfuel. cbn [snd] in Hfuel.
    destruct fuel as [|fuel]; [lia | ].
    rewrite members_unfold, scanstring_escaped by done.
    rewrite skip_ws_stop by done.
    change (58 =? 58) with true. cbv iota.
    rewrite skip_ws_space, skip_ws_list.
    rewrite scan_once_list by (done || lia).
    cbn [flat_map app]. rewrite skip_ws_stop by done.
    change (44 =? 125) with false. change (44 =? 44) with true. cbv iota.
    rewrite <- !app_assoc, skip_ws_indent.
    unfold encode_member at 1.
    rewrite <- !app_assoc, encode_basestring_ascii_app.
    rewrite skip_ws_stop by done.
    change (34 =? 34) with true. cbv iota.
    assert (key ∉ List.map fst acc) as Hfresh.
    { simpl in Hnd. apply NoDup_app in Hnd as (_ & Hnd & _).
      intros Hin. apply (Hnd key Hin). left. }
    rewrite dict_set_fresh by done.
    change (py ": ") with [58; 32]. cbn [app].
    rewrite (IH kv' k level (acc ++ [(key, JArr (List.map JStr l))]) rest fuel).
    + cbn [List.map]. by rewrite <- app_assoc.
    + done.
    + rewrite map_app. cbn [List.map fst]. rewrite <- app_assoc. done.
    + lia.
Qed.

End Documents.

Section RoundTrip.

Import Encoder Decoder.

Implicit Types (d : dict (list pystr)) (l : list pystr).

Lemma scan_once_dict d level rest fuel :
  results_safe d = true ->
  NoDup (List.map fst d) ->
  (fuel_for d + 1 <= fuel)%nat ->
  scan_once fuel (iterencode_dict d level ++ rest)
  = Some (json_of_results d, rest).
Proof.
  intros Hsafe Hnd Hfuel.
  destruct fuel as [|fuel]; [lia | ].
  destruct d as [|[key l] d]; [reflexivity | ].
  unfold iterencode_dict. cbn [app].
  rewrite scan_once_brace.
  rewrite <- !app_assoc, skip_ws_indent.
  unfold encode_member at 1. cbn [fst snd].
  rewrite <- !app_assoc, encode_basestring_ascii_app.
  rewrite skip_ws_stop by done.
  change (34 =? 125) with false. change (34 =? 34) with true. cbv iota.
  change (py ": ") with [58; 32]. cbn [app].
  pose proof (members_results d (key, l) (S level) level [] rest fuel) as H.
  cbn [fst snd] in H. rewrite H; [done | done | done | lia].
Qed.

Lemma length_flat_map_ge {A} (f : A -> pystr) (xs : list A) :
  (forall x, 1 <= length (f x))%nat ->
  (length xs <= length (flat_map f xs))%nat.
Proof.
  intros Hf. induction xs as [|x xs IH]; simpl; [lia | ].
  rewrite length_app. specialize (Hf x). lia.
Qed.

Lemma length_iterencode_list l level :
  (length l + 2 <= length (iterencode_list l level))%nat.
Proof.
  destruct l as [|x l]; [simpl; lia | ].
  unfold iterencode_list, encode_basestring_ascii.
  cbn [length]. rewrite !length_app. cbn [length].
  rewrite !length_app. cbn [length].
  pose proof (length_flat_map_ge
                (fun y => 44 :: newline_indent (S level)
                          ++ (34 :: flat_map escape_char y ++ [34])) l) as H.
  specialize (H ltac:(intros; simpl; lia)). lia.
Qed.

Lemma length_encode_member kv level :
  (length (snd kv) + 4 <= length (encode_member kv level))%nat.
Proof.
  unfold encode_member, encode_basestring_ascii.
  rewrite !length_app.
  pose proof (length_iterencode_list (snd kv) level). simpl. lia.
Qed.

Lemma length_iterencode_dict d level :
  (fuel_for d <= length (iterencode_dict d level))%nat.
Proof.
  destruct d as [|kv d]; [simpl; unfold fuel_for; simpl; lia | ].
  unfold iterencode_dict. cbn [length]. rewrite !length_app.
  rewrite fuel_for_cons.
  pose proof (length_encode_member kv (S level)).
  assert (fuel_for d <= length (flat_map
            (fun kv' => 44%N :: newline_indent (S level)
                        ++ encode_member kv' (S level)) d))%nat; [ | lia].
  clear. induction d as [|kv' d IH]; [unfold fuel_for; simpl; lia | ].
  rewrite fuel_for_cons. cbn [flat_map]. rewrite length_app.
  cbn [length]. rewrite length_app.
  pose proof (length_encode_member kv' (S level)). lia.
Qed.

(** Reading back the text written for a result dictionary yields the
    value that the dictionary denotes. *)
Lemma loads_dumps d :
  results_safe d = true ->
  NoDup (List.map fst d) ->
  loads (dumps d) = Some (json_of_results d).
Proof.
  intros Hsafe Hnd. unfold loads, dumps.
  assert (skip_ws (iterencode_dict d 0) = iterencode_dict d 0) as ->.
  { destruct d; by apply skip_ws_stop. }
  rewrite <- (app_nil_r (iterencode_dict d 0)) at 2.
  rewrite scan_once_dict; [done | done | done | ].
  pose proof (length_iterencode_dict d 0). lia.
Qed.

End RoundTrip.

(** ** The strings of a run can be written and read back *)

Section Safety.

Implicit Types (E : env) (w : world) (res : dict (list pystr)).

Lemma text_safe_cons c s :
  text_safe (c :: s) = true -> text_safe [c] = true /\ text_safe s = true.
Proof.
  cbn [text_safe]. intros H.
  apply andb_true_iff in H as [H Hs]. apply andb_true_iff in H as [Hc _].
  by rewrite Hc, andb_false_r.
Qed.

Lemma text_safe_tail s : text_safe s = true -> text_safe (tail s) = true.
Proof.
  destruct s as [|c s]; [done | ]. intros H.
  by apply text_safe_cons in H as [_ H].
Qed.

Lemma json_safe_chars s :
  text_safe s = true ->
  Forall (fun x => json_safe x = true) (List.map (fun c => JStr [c]) s).
Proof.
  induction s as [|c s IH]; intros Hs; simpl; [constructor | ].
  apply text_safe_cons in Hs as [Hc Hs]. constructor; [done | by apply IH].
Qed.

Lemma forallb_Forall {A} (f : A -> bool) (l : list A) :
  forallb f l = true <-> Forall (fun x => f x = true) l.
Proof.
  induction l as [|x l IH]; simpl.
  - split; [constructor | done].
  - rewrite andb_true_iff, IH, Forall_cons. done.
Qed.

Lemma json_safe_slice v sliced :
  json_safe v = true -> slice_from_1 v = Ok sliced -> json_safe sliced = true.
Proof.
  destruct v as [| | |s|items|?]; simpl; try discriminate.
  - intros Hs [= <-]. simpl. by apply text_safe_tail.
  - intros Hi [= <-]. simpl. destruct items as [|x items]; [done | ].
    simpl in Hi. by apply andb_true_iff in Hi as [_ Hi].
Qed.

Lemma json_safe_iterate v rows :
  json_safe v = true -> iterate v = Ok rows ->
  Forall (fun x => json_safe x = true) rows.
Proof.
  destruct v as [| | |s|items|members]; simpl; try discriminate.
  - intros Hs [= <-]. by apply json_safe_chars.
  - intros Hi [= <-]. by apply forallb_Forall.
  - intros Hm [= <-]. apply forallb_Forall in Hm.
    induction Hm as [|kv members Hkv Hm IH]; simpl; constructor; [ | done].
    simpl. by apply andb_true_iff in Hkv as [Hk _].
Qed.

Lemma json_safe_index_0 v x :
  json_safe v = true -> index_0 v = Ok x -> json_safe x = true.
Proof.
  destruct v as [| | |[|c s]|[|y items]|?]; simpl; try discriminate.
  - intros Hs [= <-]. change (text_safe [c] = true).
    by apply (text_safe_cons c s).
  - intros Hi [= <-]. by apply andb_true_iff in Hi as [Hy _].
Qed.

Lemma set_of_firsts_safe rows :
  forall seen out,
    Forall (fun x => json_safe x = true) rows ->
    Forall (fun x => json_safe x = true) seen ->
    set_of_firsts rows seen = Ok out ->
    Forall (fun x => json_safe x = true) out.
Proof.
  induction rows as [|row rows IH]; intros seen out Hrows Hseen; simpl.
  - by intros [= <-].
  - apply Forall_cons in Hrows as [Hrow Hrows].
    destruct (index_0 row) as [x|e] eqn:Hx; [ | discriminate]. simpl.
    unfold set_add. destruct (hashable x); [ | discriminate]. simpl.
    apply IH; [done | ].
    destruct (existsb (py_eqb x) seen); [done | ].
    apply Forall_app. split; [done | ].
    constructor; [ | constructor]. by apply (json_safe_index_0 row).
Qed.

Lemma fetch_urls_safe E d w :
  env_ok E -> env_decoded E ->
  Forall (fun x => json_safe x = true) (fetch_urls E d w).1.
Proof.
  intros HE HD. unfold fetch_urls.
  destruct (fetch_try E d) as [urls|e] eqn:Htry; simpl; [ | constructor].
  unfold fetch_try in Htry.
  destruct (http E (api_url d)) as [| |v] eqn:Hhttp; try discriminate.
  apply HD in Hhttp.
  destruct (slice_from_1 v) as [sliced|?] eqn:Hslice; [ | discriminate].
  simpl in Htry.
  destruct (iterate sliced) as [rows|?] eqn:Hrows; [ | discriminate].
  simpl in Htry.
  destruct (set_of_firsts rows []) as [s|?] eqn:Hs; [ | discriminate].
  simpl in Htry. injection Htry as <-.
  rewrite (HE s). apply (set_of_firsts_safe rows [] s); [ | constructor | done].
  apply (json_safe_iterate sliced); [ | done].
  by apply (json_safe_slice v).
Qed.

Lemma dict_set_keys {V} (d : dict V) k (v : V) :
  is_Some (dict_get d k) ->
  List.map fst (dict_set d k v) = List.map fst d.
Proof.
  induction d as [|[k' v'] d IH]; simpl; [by intros [? ?] | ].
  destruct (bool_decide (k' = k)); [done | ].
  intros H. simpl. by rewrite IH.
Qed.

Lemma dict_append_safe res k x res' :
  results_safe res = true -> text_safe x = true ->
  dict_append res k x = Ok res' ->
  results_safe res' = true /\ List.map fst res' = List.map fst res.
Proof.
  unfold dict_append. intros Hres Hx.
  destruct (dict_get res k) as [l|] eqn:Hl; [ | discriminate].
  intros [= <-]. split; [ | apply dict_set_keys; eauto].
  revert l Hl. unfold results_safe in *.
  induction res as [|[k' l'] res IH]; intros l; simpl; [done | ].
  simpl in Hres. apply andb_true_iff in Hres as [Hkv Hres].
  apply andb_true_iff in Hkv as [Hk' Hl'].
  destruct (bool_decide (k' = k)).
  - intros [= ->]. simpl. rewrite Hk', Hres, forallb_app, Hl'. simpl.
    by rewrite Hx.
  - intros Hl. simpl. rewrite Hk', Hl'. simpl. by apply (IH Hres l).
Qed.

Lemma classify_all_safe urls :
  forall res r res',
    Forall (fun x => json_safe x = true) urls ->
    results_safe res = true ->
    classify_all urls res = (r, res') ->
    results_safe res' = true /\ List.map fst res' = List.map fst res.
Proof.
  induction urls as [|url urls IH]; intros res r res' Hurls Hres; simpl.
  - by intros [= _ <-].
  - apply Forall_cons in Hurls as [Hurl Hurls].
    destruct url as [| | |s|?|?]; simpl; try (by intros [= _ <-]).
    destruct (dict_append res (categorize_url s) s) as [res1|e] eqn:Happ;
      [ | by intros [= _ <-]].
    apply dict_append_safe in Happ as [Hsafe1 Hkeys1]; [ | done | done].
    intros Hrec. apply IH in Hrec as [Hsafe Hkeys]; [ | done | done].
    split; [done | congruence].
Qed.

Lemma classify_all_ok urls :
  forall res res',
    classify_all urls res = (Ok tt, res') ->
    urls = List.map JStr (List.map url_text urls).
Proof.
  induction urls as [|url urls IH]; intros res res'; simpl; [done | ].
  destruct url as [| | |s|?|?]; simpl; try discriminate.
  destruct (dict_append res (categorize_url s) s) as [res1|e];
    [ | discriminate].
  intros Hrec. by rewrite <- (IH res1 res' Hrec).
Qed.

Lemma init_results_safe : results_safe init_results = true.
Proof. vm_compute. reflexivity. Qed.

(** The dictionary of a scanner stays writable and keeps its keys. *)
Lemma scan_results_safe E self w :
  env_ok E -> env_decoded E ->
  results_safe (results self) = true ->
  results_safe (results (scan E self w).1.2) = true
  /\ List.map fst (results (scan E self w).1.2) = List.map fst (results self).
Proof.
  intros HE HD Hres. unfold scan.
  pose proof (fetch_urls_safe E (domain self)
                (emit (fetching_line (domain self)) w) HE HD) as Hsafe.
  destruct (fetch_urls _ _ _) as [urls w2]. simpl in Hsafe.
  destruct urls as [|u urls]; [done | ].
  destruct (classify_all (u :: urls) (results self)) as [r res'] eqn:Hc.
  apply classify_all_safe in Hc as [H1 H2]; [ | done | done].
  by destruct r.
Qed.

(** A scan that succeeds has fetched strings only, and on a fresh
    scanner it leaves the buckets of these strings. *)
Lemma scan_true E d w scanner w1 :
  scan E (init d) w = (Ok true, scanner, w1) ->
  exists urls,
    (fetch_urls E d (emit (fetching_line d) w)).1 = List.map JStr urls
    /\ scanner = Scanner d (run_results urls).
Proof.
  unfold scan. cbn [init domain results].
  destruct (fetch_urls E d (emit (fetching_line d) w)) as [urls w2].
  destruct urls as [|u urls]; [discriminate | ].
  destruct (classify_all (u :: urls) init_results) as [[[]|e] res'] eqn:Hc;
    [ | discriminate].
  intros [= <- _].
  pose proof (classify_all_ok _ _ _ Hc) as Hurls.
  exists (List.map url_text (u :: urls)). split; [done | ].
  rewrite Hurls, classify_all_init in Hc. by injection Hc as <-.
Qed.

Lemma run_results_keys urls :
  List.map fst (run_results urls) = List.map fst CATEGORIES ++ [other].
Proof.
  unfold run_results. rewrite map_map. simpl. reflexivity.
Qed.

Lemma run_results_get urls cat :
  cat ∈ List.map fst CATEGORIES ++ [other] ->
  dict_get (run_results urls) cat = Some (bucket cat urls).
Proof.
  intros Hcat. unfold run_results.
  pose proof (dict_get_map_values init_results cat
                (fun k _ => bucket k urls)) as H.
  cbv beta in H. rewrite H.
  rewrite <- init_results_keys in Hcat.
  by destruct (dict_get_is_Some init_results cat Hcat) as [l ->].
Qed.

End Safety.

(** ** The output file *)

Section Output.

Implicit Types (E : env) (w : world).

Lemma env_answering_decoded (v : json) :
  json_safe v = true -> env_decoded (env_answering (Body_json v)).
Proof. intros Hv url v' [= <-]. exact Hv. Qed.

(** A run that writes a file has fetched strings, has finished, and has
    written the buckets of these strings to the chosen path. *)
Lemma main_saved E prog d args w :
  written (main E (prog :: d :: args) w).2 <> written w ->
  exists out urls,
    output_file (prog :: d :: args) = Ok out
    /\ (fetch_urls E d (emit (fetching_line d) w)).1 = List.map JStr urls
    /\ scan E (init d) w
       = (Ok true, Scanner d (run_results urls), (scan E (init d) w).2)
    /\ main E (prog :: d :: args) w
       = (Finished,
          world_saved (Scanner d (run_results urls)) out
            (scan E (init d) w).2).
Proof.
  destruct (main_run E prog d args w) as (out & Hout & ->).
  pose proof (scan_written E (init d) w) as Hw.
  destruct (scan E (init d) w) as [[[[|]|e] scanner] w1] eqn:Hscan;
    simpl in Hw; try (by intros []).
  destruct (can_open E out); [ | by intros []].
  intros _. apply scan_true in Hscan as (urls & Hfetch & ->).
  exists out, urls. done.
Qed.

Lemma run_results_NoDup urls : NoDup (List.map fst (run_results urls)).
Proof.
  rewrite run_results_keys, <- init_results_keys. apply init_results_NoDup.
Qed.

Lemma run_results_member urls cat :
  cat ∈ List.map fst CATEGORIES ++ [other] ->
  (cat, JArr (List.map JStr (bucket cat urls)))
  ∈ List.map json_of_member (run_results urls).
Proof.
  rewrite <- init_results_keys. intros Hcat.
  apply list_elem_of_In in Hcat. apply in_map_iff in Hcat as (kv & <- & Hkv).
  apply list_elem_of_In. apply in_map_iff.
  exists (kv.1, bucket kv.1 urls). split; [done | ].
  unfold run_results. apply in_map_iff. by exists kv.
Qed.

Lemma bucket_empty cat urls :
  (forall u, u ∈ urls -> categorize_url u <> cat) -> bucket cat urls = [].
Proof.
  intros Hnone. unfold bucket.
  induction urls as [|u urls IH]; [done | ].
  rewrite filter_cons, decide_False.
  - apply IH. intros u' Hu'. apply Hnone. by right.
  - apply Hnone. left.
Qed.

End Output.

(** C6: the file that a run writes holds a key for every declared
    category and for ["other"]; a category that no fetched URL falls into
    is present with an empty list. *)
Theorem saved_file_has_every_category
    (E : env) (argv : list pystr) (w : world) :
  env_ok E -> env_decoded E ->
  written (main E argv w).2 <> written w ->
  exists out urls,
    written (main E argv w).2
    = written w ++ [(out, Encoder.dumps (run_results urls))]
    /\ read_json (main E argv w).2 out
       = Some (json_of_results (run_results urls))
    /\ List.map fst (run_results urls) = List.map fst CATEGORIES ++ [other]
    /\ (forall cat, cat ∈ List.map fst CATEGORIES ++ [other] ->
          (cat, JArr (List.map JStr (bucket cat urls)))
          ∈ List.map json_of_member (run_results urls))
    /\ (forall cat, cat ∈ List.map fst CATEGORIES ++ [other] ->
          (forall u, u ∈ urls -> categorize_url u <> cat) ->
          (cat, JArr []) ∈ List.map json_of_member (run_results urls)).
Proof.
  intros HE HD Hwritten.
  destruct argv as [|prog [|d args]];
    [by destruct Hwritten; simpl; rewrite written_emit, app_nil_r ..| ].
  destruct (main_saved E prog d args w Hwritten)
    as (out & urls & Hout & Hfetch & Hscan & Hmain).
  exists out, urls. rewrite Hmain. cbn [snd].
  pose proof (scan_written E (init d) w) as Hw.
  pose proof (scan_results_safe E (init d) w HE HD init_results_safe)
    as [Hsafe _].
  rewrite Hscan in Hsafe. cbn [fst snd results] in Hsafe.
  split; [by rewrite world_saved_written, Hw | ].
  split.
  { unfold read_json. rewrite world_saved_files. cbn [results].
    rewrite lookup_insert_eq.
    apply loads_dumps; [done | apply run_results_NoDup]. }
  split; [apply run_results_keys | ].
  split; [intros cat; apply run_results_member | ].
  intros cat Hcat Hnone.
  pose proof (run_results_member urls cat Hcat) as Hmem.
  by rewrite (bucket_empty cat urls Hnone) in Hmem.
Qed.

Lemma saved_file_has_every_category_witness :
  let E := env_answering (Body_json example_rows) in
  let argv := [py "waybackcrawl.py"; py "x.com"] in
  exists out urls,
    written (main E argv empty_world).2
    = written empty_world ++ [(out, Encoder.dumps (run_results urls))]
    /\ read_json (main E argv empty_world).2 out
       = Some (json_of_results (run_results urls))
    /\ List.map fst (run_results urls) = List.map fst CATEGORIES ++ [other]
    /\ (forall cat, cat ∈ List.map fst CATEGORIES ++ [other] ->
          (cat, JArr (List.map JStr (bucket cat urls)))
          ∈ List.map json_of_member (run_results urls))
    /\ (forall cat, cat ∈ List.map fst CATEGORIES ++ [other] ->
          (forall u, u ∈ urls -> categorize_url u <> cat) ->
          (cat, JArr []) ∈ List.map json_of_member (run_results urls)).
Proof.
  cbv zeta.
  apply (saved_file_has_every_category
           (env_answering (Body_json example_rows))
           [py "waybackcrawl.py"; py "x.com"] empty_world).
  - apply env_answering_ok.
  - apply env_answering_decoded. vm_compute. reflexivity.
  - vm_compute. discriminate.
Defined.



(** ** What the decoder returns can be written and read back

    The hypothesis [env_decoded] of the statements above asks that the
    strings of the archive response are [text_safe].  This section shows
    that it holds of every value that [Decoder.loads] returns on a text
    of Unicode scalar values. *)

Section DecoderInvariant.

Import Decoder.

Implicit Types (s rest out : pystr) (c : N).

Lemma hex_value_lt c x : hex_value c = Some x -> x < 16.
Proof.
  unfold hex_value.
  destruct ((48 <=? c) && (c <=? 57)) eqn:H1.
  { apply andb_true_iff in H1 as [Ha Hb].
    apply N.leb_le in Ha, Hb. intros [= <-]. lia. }
  destruct ((97 <=? c) && (c <=? 102)) eqn:H2.
  { apply andb_true_iff in H2 as [Ha Hb].
    apply N.leb_le in Ha, Hb. intros [= <-]. lia. }
  destruct ((65 <=? c) && (c <=? 70)) eqn:H3; [ | discriminate].
  apply andb_true_iff in H3 as [Ha Hb].
  apply N.leb_le in Ha, Hb. intros [= <-]. lia.
Qed.

Lemma decode_uXXXX_lt a b c d uni :
  decode_uXXXX a b c d = Some uni -> uni < 65536.
Proof.
  unfold decode_uXXXX.
  destruct (hex_value a) as [x3|] eqn:H3; [ | discriminate].
  destruct (hex_value b) as [x2|] eqn:H2; [ | discriminate].
  destruct (hex_value c) as [x1|] eqn:H1; [ | discriminate].
  destruct (hex_value d) as [x0|] eqn:H0; [ | discriminate].
  apply hex_value_lt in H3, H2, H1, H0. intros [= <-]. lia.
Qed.

Lemma backslash_scalar e ch : backslash e = Some ch -> scalar_value ch = true.
Proof.
  unfold backslash.
  repeat (match goal with
          | |- context [?x =? ?k] => destruct (x =? k)
          end; [by intros [= <-] | ]).
  discriminate.
Qed.

Lemma join_surrogates_range hi lo :
  is_high_surrogate hi = true -> is_low_surrogate lo = true ->
  65536 <= join_surrogates hi lo < 1114112.
Proof.
  unfold is_high_surrogate, is_low_surrogate, join_surrogates.
  intros Hh Hl.
  apply andb_true_iff in Hh as [Hh1 Hh2], Hl as [Hl1 Hl2].
  apply N.leb_le in Hh1, Hh2, Hl1, Hl2.
  rewrite N.shiftl_mul_pow2.
  rewrite lor_high_low by (change (2 ^ 10) with 1024; lia).
  change (2 ^ 10) with 1024. lia.
Qed.

Lemma scalar_value_spec c :
  scalar_value c = true ->
  c < 1114112 /\ is_high_surrogate c = false /\ is_low_surrogate c = false.
Proof.
  unfold scalar_value, is_high_surrogate, is_low_surrogate.
  intros H. apply andb_true_iff in H as [Hc Hs].
  apply N.ltb_lt in Hc. apply negb_true_iff, andb_false_iff in Hs.
  split; [done | ].
  split; apply andb_false_iff;
    destruct Hs as [Hs | Hs]; apply N.leb_gt in Hs;
    first [ left; apply N.leb_gt; lia | right; apply N.leb_gt; lia ].
Qed.

Lemma scalar_text_cons c s :
  scalar_text (c :: s) = true -> scalar_value c = true /\ scalar_text s = true.
Proof. unfold scalar_text. simpl. apply andb_true_iff. Qed.

Lemma scalar_text_drop k s :
  scalar_text s = true -> scalar_text (drop k s) = true.
Proof.
  revert s. induction k as [|k IH]; intros [|c s] Hs; try done.
  apply scalar_text_cons in Hs as [_ Hs]. by apply IH.
Qed.

Lemma text_safe_scalar_cons c out :
  scalar_value c = true -> text_safe out = true ->
  text_safe (c :: out) = true.
Proof.
  intros Hc Hout. apply scalar_value_spec in Hc as (Hlt & Hhigh & _).
  cbn [text_safe]. rewrite Hhigh, Hout.
  apply N.ltb_lt in Hlt. by rewrite Hlt.
Qed.

Lemma cons_char_Some c r out rest :
  cons_char c r = Some (out, rest) ->
  exists out', r = Some (out', rest) /\ out = c :: out'.
Proof.
  destruct r as [[out' rest']|]; [ | discriminate].
  intros [= <- <-]. eauto.
Qed.

Lemma scanstring_step s out rest :
  scanstring s = Some (out, rest) -> scan_step s out rest.
Proof.
  destruct s as [|c s1]; [discriminate | ].
  destruct (N.eqb_spec c 34) as [-> | H34].
  { rewrite scanstring_quote. intros [= <- <-]. by apply step_quote. }
  destruct (N.eqb_spec c 92) as [-> | H92].
  - destruct s1 as [|e s2]; [discriminate | ].
    destruct (N.eqb_spec e 117) as [-> | H117].
    + destruct s2 as [|a [|b [|c' [|d s3]]]]; try discriminate.
      rewrite scanstring_u_unfold.
      destruct (decode_uXXXX a b c' d) as [uni|] eqn:Hdec; [ | discriminate].
      assert (forall r : option (pystr * pystr),
                is_high_surrogate uni = false \/ starts_low_escape s3 = false ->
                cons_char uni (scanstring s3) = Some (out, rest) ->
                scan_step (92 :: 117 :: a :: b :: c' :: d :: s3) out rest)
        as Hplain.
      { intros _ Hp Hc. apply cons_char_Some in Hc as (out' & Hs3 & ->).
        by eapply step_u. }
      destruct s3 as [|bs [|u [|a2 [|b2 [|c2 [|d2 s4]]]]]];
        try (apply (Hplain None); right; cbn [starts_low_escape];
             by rewrite ?andb_false_r).
      destruct (is_high_surrogate uni) eqn:Hhigh;
        [ | apply (Hplain None); by left].
      destruct (N.eqb_spec bs 92) as [-> | Hbs].
      2:{ apply (Hplain None). right. cbn [starts_low_escape].
          by destruct (N.eqb_spec bs 92). }
      destruct (N.eqb_spec u 117) as [-> | Hu].
      2:{ apply (Hplain None). right. cbn [starts_low_escape].
          destruct (N.eqb_spec u 117); [done | ]. by rewrite andb_false_r. }
      cbn [andb].
      destruct (decode_uXXXX a2 b2 c2 d2) as [uni2|] eqn:Hdec2;
        [ | discriminate].
      destruct (is_low_surrogate uni2) eqn:Hlow.
      * intros Hc. apply cons_char_Some in Hc as (out' & Hs4 & ->).
        by eapply step_pair.
      * apply (Hplain None). right. cbn [starts_low_escape].
        change (92 =? 92) with true. change (117 =? 117) with true.
        by rewrite Hdec2, Hlow.
    + cbn [scanstring]. change (92 =? 34) with false.
      change (92 =? 92) with true. cbv iota.
      destruct (N.eqb_spec e 117); [done | ].
      destruct (backslash e) as [ch|] eqn:Hch; [ | discriminate].
      intros Hc. apply cons_char_Some in Hc as (out' & Hs2 & ->).
      by eapply step_named.
  - cbn [scanstring].
    destruct (N.eqb_spec c 34); [done | ].
    destruct (N.eqb_spec c 92); [done | ].
    destruct (c <? 32); [discriminate | ].
    intros Hc. apply cons_char_Some in Hc as (out' & Hs1 & ->).
    by eapply step_plain.
Qed.

(** A decoded string is [text_safe]; what follows it in the text is left
    as it was; and a decoded string starts with a low surrogate only
    when the text starts with the escape of one. *)
Lemma scanstring_safe n :
  forall s out rest,
    (length s <= n)%nat ->
    scalar_text s = true ->
    scanstring s = Some (out, rest) ->
    text_safe out = true /\ scalar_text rest = true
    /\ match out with
       | c :: _ => is_low_surrogate c = true -> starts_low_escape s = true
       | [] => True
       end.
Proof.
  induction n as [|n IH]; intros s out rest Hlen Hs Hscan.
  { destruct s; [discriminate | simpl in Hlen; lia]. }
  apply scanstring_step in Hscan.
  destruct Hscan as
    [ -> ->
    | c s1 out' -> H34 H92 Hrec ->
    | e ch s2 out' -> Hch Hrec ->
    | a b c d uni s3 out' -> Hdec Hplain Hrec ->
    | a b c d a2 b2 c2 d2 hi lo s4 out' -> Hhi Hlo Hhigh Hlow Hrec -> ].
  - split; [done | ]. split; [ | done].
    by apply scalar_text_cons in Hs as [_ Hs].
  - apply scalar_text_cons in Hs as [Hc Hs1].
    apply IH in Hrec as (Hout' & Hrest & _); [ | simpl in Hlen; lia | done].
    split; [by apply text_safe_scalar_cons | ]. split; [done | ].
    apply scalar_value_spec in Hc as (_ & _ & Hnot). congruence.
  - pose proof (scalar_text_drop 2 _ Hs) as Hs2. cbn [drop] in Hs2.
    apply IH in Hrec as (Hout' & Hrest & _); [ | simpl in Hlen; lia | done].
    pose proof (backslash_scalar e ch Hch) as Hsc.
    split; [by apply text_safe_scalar_cons | ]. split; [done | ].
    apply scalar_value_spec in Hsc as (_ & _ & Hnot). congruence.
  - pose proof (scalar_text_drop 6 _ Hs) as Hs3. cbn [drop] in Hs3.
    apply IH in Hrec as (Hout' & Hrest & Hhead);
      [ | simpl in Hlen; lia | done].
    apply decode_uXXXX_lt in Hdec as Hlt.
    split; [ | split; [done | ]].
    + cbn [text_safe]. rewrite Hout', andb_true_r.
      apply andb_true_iff. split; [apply N.ltb_lt; lia | ].
      apply negb_true_iff.
      destruct Hplain as [-> | Hnot]; [done | ].
      destruct out' as [|c2' out'']; [apply andb_false_r | ].
      destruct (is_low_surrogate c2') eqn:Hl; [ | apply andb_false_r].
      rewrite Hhead in Hnot by done. discriminate.
    + intros Hl. cbn [starts_low_escape].
      change (92 =? 92) with true. change (117 =? 117) with true.
      by rewrite Hdec, Hl.
  - pose proof (scalar_text_drop 12 _ Hs) as Hs4. cbn [drop] in Hs4.
    apply IH in Hrec as (Hout' & Hrest & _); [ | simpl in Hlen; lia | done].
    pose proof (join_surrogates_range hi lo Hhigh Hlow) as [Hge Hlt].
    assert (scalar_value (join_surrogates hi lo) = true) as Hsc.
    { unfold scalar_value. apply andb_true_iff.
      split; [by apply N.ltb_lt | ].
      apply negb_true_iff, andb_false_iff. right. apply N.leb_gt. lia. }
    split; [by apply text_safe_scalar_cons | ]. split; [done | ].
    apply scalar_value_spec in Hsc as (_ & _ & Hnot). congruence.
Qed.

End DecoderInvariant.

Section DecoderValues.

Import Decoder.

Implicit Types (s rest : pystr) (v : json).

Lemma skip_ws_scalar s : scalar_text s = true -> scalar_text (skip_ws s) = true.
Proof.
  induction s as [|c s IH]; intros Hs; [done | ].
  cbn [skip_ws]. destruct (is_ws c); [ | done].
  apply scalar_text_cons in Hs as [_ Hs]. by apply IH.
Qed.

Lemma digits_scalar s acc :
  scalar_text s = true -> scalar_text (digits s acc).2 = true.
Proof.
  revert acc. induction s as [|c s IH]; intros acc Hs; [done | ].
  cbn [digits]. destruct (is_digit c); [ | done].
  apply scalar_text_cons in Hs as [_ Hs]. by apply IH.
Qed.

Lemma integer_scalar s n rest :
  scalar_text s = true -> integer s = Some (n, rest) ->
  scalar_text rest = true.
Proof.
  intros Hs. unfold integer.
  assert (forall negative s0,
            scalar_text s0 = true ->
            match s0 with
            | [] => None
            | c :: s1 =>
                if is_digit c
                then
                  let '(n0, rest0) :=
                    if c =? 48 then (0%Z, s1) else digits s0 0 in
                  match rest0 with
                  | [] => Some (if negative : bool then (- n0)%Z else n0, rest0)
                  | d :: _ =>
                      if (d =? 46) || (d =? 101) || (d =? 69)
                      then None
                      else Some (if negative then (- n0)%Z else n0, rest0)
                  end
                else None
            end = Some (n, rest) -> scalar_text rest = true) as Hbody.
  { intros negative [|c s1] Hs0; [discriminate | ].
    destruct (is_digit c); [ | discriminate].
    assert (scalar_text (if c =? 48 then (0%Z, s1)
                         else digits (c :: s1) 0).2 = true) as Hrest.
    { destruct (c =? 48); [ | by apply digits_scalar].
      by apply scalar_text_cons in Hs0 as [_ Hs0]. }
    destruct (if c =? 48 then (0%Z, s1) else digits (c :: s1) 0)
      as [n0 rest0].
    cbn [snd] in Hrest.
    destruct rest0 as [|d rest1]; [by intros [= _ <-] | ].
    destruct ((d =? 46) || (d =? 101) || (d =? 69)); [discriminate | ].
    by intros [= _ <-]. }
  destruct s as [|c s']; [discriminate | ].
  destruct (c =? 45); cbv beta iota.
  - apply (Hbody true s'). by apply scalar_text_cons in Hs as [_ Hs].
  - by apply (Hbody false (c :: s')).
Qed.

Lemma dict_set_safe (acc : dict json) k v :
  members_safe acc = true -> text_safe k = true -> json_safe v = true ->
  members_safe (dict_set acc k v) = true.
Proof.
  unfold members_safe. intros Hacc Hk Hv.
  induction acc as [|[k' v'] acc IH]; simpl.
  - by rewrite Hk, Hv.
  - simpl in Hacc. apply andb_true_iff in Hacc as [Hkv Hacc].
    apply andb_true_iff in Hkv as [Hk' Hv'].
    destruct (bool_decide (k' = k)); simpl.
    + by rewrite Hk', Hv, Hacc.
    + by rewrite Hk', Hv', IH.
Qed.

Lemma scanstring_decoded s out rest :
  scalar_text s = true -> scanstring s = Some (out, rest) ->
  text_safe out = true /\ scalar_text rest = true.
Proof.
  intros Hs Hscan.
  destruct (scanstring_safe (length s) s out rest) as (H1 & H2 & _); done.
Qed.

(** Every value that the scanner returns is [json_safe], and what
    follows it in the text is left as it was. *)
Lemma scan_once_safe fuel :
  (forall s v rest,
      scalar_text s = true -> scan_once fuel s = Some (v, rest) ->
      json_safe v = true /\ scalar_text rest = true)
  /\ (forall s acc v rest,
        scalar_text s = true -> members_safe acc = true ->
        members fuel s acc = Some (v, rest) ->
        json_safe v = true /\ scalar_text rest = true)
  /\ (forall s acc v rest,
        scalar_text s = true -> forallb json_safe acc = true ->
        elements fuel s acc = Some (v, rest) ->
        json_safe v = true /\ scalar_text rest = true).
Proof.
  induction fuel as [|fuel (IHv & IHm & IHe)];
    [by repeat split; intros; discriminate | ].
  split; [ | split].
  - intros [|c s1] v rest Hs; [discriminate | ].
    pose proof (scalar_text_cons _ _ Hs) as [_ Hs1].
    destruct (N.eqb_spec c 34) as [-> | H34].
    { rewrite scan_once_quote.
      destruct (scanstring s1) as [[t rest']|] eqn:Ht; [ | discriminate].
      intros [= <- <-]. by apply (scanstring_decoded s1). }
    destruct (N.eqb_spec c 123) as [-> | H123].
    { rewrite scan_once_brace.
      pose proof (skip_ws_scalar s1 Hs1) as Hsk.
      destruct (skip_ws s1) as [|c' s2]; [discriminate | ].
      apply scalar_text_cons in Hsk as [_ Hs2].
      destruct (c' =? 125); [by intros [= <- <-] | ].
      destruct (c' =? 34); [ | discriminate].
      by apply IHm. }
    destruct (N.eqb_spec c 91) as [-> | H91].
    { rewrite scan_once_bracket.
      pose proof (skip_ws_scalar s1 Hs1) as Hsk.
      destruct (skip_ws s1) as [|c' s2] eqn:Hskip; [discriminate | ].
      destruct (c' =? 93).
      - intros [= <- <-]. by apply scalar_text_cons in Hsk as [_ Hs2].
      - by apply IHe. }
    cbn [scan_once].
    destruct (N.eqb_spec c 34); [done | ].
    destruct (N.eqb_spec c 123); [done | ].
    destruct (N.eqb_spec c 91); [done | ].
    destruct (startswith (c :: s1) (py "null")).
    { intros [= <- <-]. split; [done | by apply scalar_text_drop]. }
    destruct (startswith (c :: s1) (py "true")).
    { intros [= <- <-]. split; [done | by apply scalar_text_drop]. }
    destruct (startswith (c :: s1) (py "false")).
    { intros [= <- <-]. split; [done | by apply scalar_text_drop]. }
    destruct (integer (c :: s1)) as [[z rest']|] eqn:Hint; [ | discriminate].
    intros [= <- <-]. split; [done | by apply (integer_scalar (c :: s1) z)].
  - intros s acc v rest Hs Hacc. rewrite members_unfold.
    destruct (scanstring s) as [[key s1]|] eqn:Hkey; [ | discriminate].
    apply (scanstring_decoded s) in Hkey as [Hk Hs1]; [ | done].
    pose proof (skip_ws_scalar s1 Hs1) as Hsk.
    destruct (skip_ws s1) as [|c s2]; [discriminate | ].
    apply scalar_text_cons in Hsk as [_ Hs2].
    destruct (c =? 58); [ | discriminate].
    destruct (scan_once fuel (skip_ws s2)) as [[value s3]|] eqn:Hval;
      [ | discriminate].
    apply IHv in Hval as [Hvalue Hs3]; [ | by apply skip_ws_scalar].
    pose proof (dict_set_safe acc key value Hacc Hk Hvalue) as Hacc'.
    pose proof (skip_ws_scalar s3 Hs3) as Hsk3.
    destruct (skip_ws s3) as [|c' s4]; [discriminate | ].
    apply scalar_text_cons in Hsk3 as [_ Hs4].
    destruct (c' =? 125); [by intros [= <- <-] | ].
    destruct (c' =? 44); [ | discriminate].
    pose proof (skip_ws_scalar s4 Hs4) as Hsk4.
    destruct (skip_ws s4) as [|q s5]; [discriminate | ].
    apply scalar_text_cons in Hsk4 as [_ Hs5].
    destruct (q =? 34); [ | discriminate].
    by apply IHm.
  - intros s acc v rest Hs Hacc. rewrite elements_unfold.
    destruct (scan_once fuel s) as [[value s1]|] eqn:Hval; [ | discriminate].
    apply IHv in Hval as [Hvalue Hs1]; [ | done].
    assert (forallb json_safe (acc ++ [value]) = true) as Hacc'.
    { rewrite forallb_app, Hacc. simpl. by rewrite Hvalue. }
    pose proof (skip_ws_scalar s1 Hs1) as Hsk.
    destruct (skip_ws s1) as [|c s2]; [discriminate | ].
    apply scalar_text_cons in Hsk as [_ Hs2].
    destruct (c =? 93); [by intros [= <- <-] | ].
    destruct (c =? 44); [ | discriminate].
    apply IHe; [by apply skip_ws_scalar | done].
Qed.

(** The strings of a decoded document satisfy the hypothesis under
    which results are written and read back. *)
Lemma loads_safe (t : pystr) v :
  scalar_text t = true -> loads t = Some v -> json_safe v = true.
Proof.
  intros Ht. unfold loads.
  destruct (scan_once (S (length t)) (skip_ws t)) as [[v' rest]|] eqn:Hscan;
    [ | discriminate].
  destruct (skip_ws rest); [ | discriminate].
  intros [= <-].
  destruct (scan_once_safe (S (length t))) as (Hv & _ & _).
  apply Hv in Hscan as [Hsafe _]; [done | by apply skip_ws_scalar].
Qed.

Lemma env_decoded_of_loads (E : env) :
  (forall url v, http E url = Body_json v ->
                 exists t, scalar_text t = true /\ loads t = Some v) ->
  env_decoded E.
Proof.
  intros Hbody url v Hhttp.
  destruct (Hbody url v Hhttp) as (t & Ht & Hloads).
  by apply (loads_safe t).
Qed.

End DecoderValues.

(** * Further properties of the code *)

(** ** [categorize_url] *)

Section ClassifierMore.

Implicit Types (u : pystr) (table : list (pystr * list pystr)).

(** What the loop has seen when it returns. *)
Lemma categorize_in_cases table u :
  (categorize_in table u = other
   /\ forall c ps, (c, ps) ∈ table -> any_pattern ps u = false)
  \/ exists before cat patterns after,
       table = before ++ (cat, patterns) :: after
       /\ categorize_in table u = cat
       /\ any_pattern patterns u = true
       /\ forall c ps, (c, ps) ∈ before -> any_pattern ps u = false.
Proof.
  induction table as [|[c ps] table IH]; simpl.
  - left. split; [done | ]. intros c ps H. inversion H.
  - destruct (any_pattern ps u) eqn:Hps.
    + right. exists [], c, ps, table. repeat split; try done.
      intros c' ps' H. inversion H.
    + destruct IH as [[Hother Hnone] | (before & cat & pats & after & -> & Hcat
                                        & Hmatch & Hbefore)].
      * left. split; [done | ]. intros c' ps' Hin.
        apply elem_of_cons in Hin as [[= -> ->] | Hin]; [done | eauto].
      * right. exists ((c, ps) :: before), cat, pats, after.
        repeat split; try done.
        intros c' ps' Hin.
        apply elem_of_cons in Hin as [[= -> ->] | Hin]; [done | eauto].
Qed.

Lemma split_at_key {V} (b1 b2 a1 a2 : list (pystr * V)) k v1 v2 :
  NoDup (List.map fst (b1 ++ (k, v1) :: a1)) ->
  b1 ++ (k, v1) :: a1 = b2 ++ (k, v2) :: a2 ->
  b1 = b2 /\ v1 = v2 /\ a1 = a2.
Proof.
  revert b2. induction b1 as [|[k' v'] b1 IH]; intros b2 Hnd Heq.
  - destruct b2 as [|[k2 v2'] b2]; simpl in *.
    + by injection Heq as -> ->.
    + injection Heq as -> -> ->. apply NoDup_cons in Hnd as [Hk _].
      destruct Hk. rewrite map_app. simpl.
      apply elem_of_app. right. left.
  - destruct b2 as [|[k2 v2'] b2]; simpl in *.
    + injection Heq as -> -> <-. apply NoDup_cons in Hnd as [Hk _].
      destruct Hk. rewrite map_app. simpl.
      apply elem_of_app. right. left.
    + injection Heq as -> -> Heq. apply NoDup_cons in Hnd as [_ Hnd].
      destruct (IH b2 Hnd Heq) as (-> & -> & ->). done.
Qed.

Lemma CATEGORIES_NoDup : NoDup (List.map fst CATEGORIES ++ [other]).
Proof.
  apply (bool_decide_unpack (NoDup (List.map fst CATEGORIES ++ [other]))).
  vm_compute. exact I.
Qed.

End ClassifierMore.

(** X1: the converse of the classification rule.  [categorize_url]
    returns a category of the table exactly when the URL matches one of
    its patterns and no pattern of an earlier category, and it returns
    ["other"] exactly when the URL matches no pattern at all. *)
Theorem categorize_url_exactly
    (u cat : pystr) (patterns : list pystr)
    (before after : list (pystr * list pystr)) :
  CATEGORIES = before ++ (cat, patterns) :: after ->
  (categorize_url u = cat <->
     (exists p, p ∈ patterns /\ Re.search p u = true)
     /\ forall c ps p, (c, ps) ∈ before -> p ∈ ps -> Re.search p u = false)
  /\ (categorize_url u = py "other" <->
        forall c ps p, (c, ps) ∈ CATEGORIES -> p ∈ ps -> Re.search p u = false).
Proof.
  intros Htable.
  pose proof CATEGORIES_NoDup as Hnd. apply NoDup_app in Hnd as (Hnd & Hother & _).
  assert (forall c ps, (c, ps) ∈ CATEGORIES -> c <> other) as Hnot_other.
  { intros c ps Hin ->. apply (Hother other); [ | left].
    apply list_elem_of_In, in_map_iff. exists (other, ps).
    split; [done | by apply list_elem_of_In]. }
  unfold categorize_url.
  destruct (categorize_in_cases CATEGORIES u)
    as [[Hcat Hnone] | (b & c & ps & a & Hsplit & Hcat & Hmatch & Hbefore)].
  - split.
    + split.
      * intros Heq. exfalso. apply (Hnot_other cat patterns).
        -- rewrite Htable. apply elem_of_app. right. left.
        -- congruence.
      * intros [(p & Hp & Hs) _]. exfalso.
        assert (any_pattern patterns u = false) as Hf.
        { apply (Hnone cat). rewrite Htable. apply elem_of_app. right. left. }
        rewrite (proj1 (any_pattern_false patterns u) Hf p Hp) in Hs.
        discriminate.
    + split; [ | done]. intros _ c ps p Hin Hp.
      by apply (proj1 (any_pattern_false ps u) (Hnone c ps Hin)).
  - split.
    + split.
      * intros Heq. assert (c = cat) as -> by congruence.
        rewrite Htable in Hsplit, Hnd.
        destruct (split_at_key before b after a cat patterns ps Hnd Hsplit)
          as (-> & -> & ->).
        split; [by apply any_pattern_true | ].
        intros c' ps' p Hin Hp.
        by apply (proj1 (any_pattern_false ps' u) (Hbefore c' ps' Hin)).
      * intros [Hm Hb]. rewrite Htable.
        rewrite categorize_in_skip.
        -- simpl. apply any_pattern_true in Hm. by rewrite Hm.
        -- intros c' ps' Hin. apply any_pattern_false. intros p Hp.
           by apply (Hb c' ps' p).
    + split.
      * intros Heq. exfalso. apply (Hnot_other c ps).
        -- rewrite Hsplit. apply elem_of_app. right. left.
        -- unfold other. congruence.
      * intros Hnone. exfalso.
        apply any_pattern_true in Hmatch as (p & Hp & Hs).
        rewrite (Hnone c ps p) in Hs; [discriminate | | done].
        rewrite Hsplit. apply elem_of_app. right. left.
Qed.

Lemma categorize_url_exactly_witness :
  let u := py "http://x.com/wp-admin/login.php" in
  (categorize_url u = py "admin" <->
     (exists p, p ∈ [py "admin"; py "dashboard"; py "login"; py "wp-admin"]
                /\ Re.search p u = true)
     /\ forall c ps p, (c, ps) ∈ take 2 CATEGORIES -> p ∈ ps ->
                       Re.search p u = false)
  /\ (categorize_url u = py "other" <->
        forall c ps p, (c, ps) ∈ CATEGORIES -> p ∈ ps -> Re.search p u = false).
Proof.
  apply (categorize_url_exactly
           (py "http://x.com/wp-admin/login.php") (py "admin")
           [py "admin"; py "dashboard"; py "login"; py "wp-admin"]
           (take 2 CATEGORIES) (drop 3 CATEGORIES)).
  reflexivity.
Defined.

Section CaseInsensitive.

Implicit Types (x c : N) (s : pystr).

Lemma ascii_upper_cases x :
  (97 <= x <= 122 /\ ascii_upper x = x - 32)
  \/ (~ (97 <= x <= 122) /\ ascii_upper x = x).
Proof.
  unfold ascii_upper.
  destruct (N.leb_spec 97 x); destruct (N.leb_spec x 122); simpl;
    first [ left; split; [lia | done] | right; split; [lia | done] ].
Qed.

Lemma lower_ascii_upper x : Re.lower (ascii_upper x) = Re.lower x.
Proof.
  destruct (ascii_upper_cases x) as [[Hx ->] | [_ ->]]; [ | done].
  unfold Re.lower, Re.is_ascii_upper.
  replace ((65 <=? x - 32) && (x - 32 <=? 90)) with true
    by (symmetry; apply andb_true_iff; split; apply N.leb_le; lia).
  replace ((65 <=? x) && (x <=? 90)) with false
    by (symmetry; apply andb_false_iff; right; apply N.leb_gt; lia).
  destruct (N.eqb_spec x 304); [lia | ].
  destruct (N.eqb_spec x 8490); lia.
Qed.

Lemma lit_matches_ascii_upper c x :
  Re.lit_matches c (ascii_upper x) = Re.lit_matches c x.
Proof.
  unfold Re.lit_matches. destruct (Re.iscased c) eqn:Hc.
  - by rewrite lower_ascii_upper.
  - destruct (ascii_upper_cases x) as [[Hx ->] | [_ ->]]; [ | done].
    unfold Re.iscased, Re.is_ascii_upper, Re.is_ascii_lower in Hc.
    apply orb_false_iff in Hc as [Hu Hl].
    destruct (N.eqb_spec (x - 32) c) as [<- | _].
    { exfalso. apply andb_false_iff in Hu as [H | H];
        apply N.leb_gt in H; lia. }
    destruct (N.eqb_spec x c) as [<- | _]; [ | done].
    exfalso. apply andb_false_iff in Hl as [H | H]; apply N.leb_gt in H; lia.
Qed.

Lemma item_matches_ascii_upper it x :
  Re.item_matches it (ascii_upper x) = Re.item_matches it x.
Proof.
  destruct it as [c | lo hi]; simpl.
  - apply lit_matches_ascii_upper.
  - by rewrite lower_ascii_upper.
Qed.

Lemma at_end_upper s : Re.at_end (upper s) = Re.at_end s.
Proof.
  destruct s as [|c [|d s]]; try done. simpl.
  destruct (ascii_upper_cases c) as [[Hc ->] | [_ ->]]; [ | done].
  destruct (N.eqb_spec (c - 32) 10); [lia | ].
  destruct (N.eqb_spec c 10); [lia | done].
Qed.

Lemma match_here_upper (r : Re.regex) :
  forall s (k k' : pystr -> bool),
    (forall t, k' (upper t) = k t) ->
    Re.match_here r (upper s) k' = Re.match_here r s k.
Proof.
  induction r as [|c|items| |r1 IH1 r2 IH2|r1 IH1 r2 IH2];
    intros s k k' Hk; simpl.
  - apply Hk.
  - destruct s as [|x s]; [done | ]. simpl.
    by rewrite lit_matches_ascii_upper, (Hk s).
  - destruct s as [|x s]; [done | ]. simpl. rewrite (Hk s). f_equal.
    induction items as [|it items IHitems]; simpl; [done | ].
    by rewrite item_matches_ascii_upper, IHitems.
  - by rewrite at_end_upper, (Hk s).
  - apply IH1. intros t. by apply IH2.
  - by rewrite (IH1 s k k' Hk), (IH2 s k k' Hk).
Qed.

Lemma search_regex_upper (r : Re.regex) s :
  Re.search_regex r (upper s) = Re.search_regex r s.
Proof.
  induction s as [|x s IH].
  - reflexivity.
  - change (upper (x :: s)) with (ascii_upper x :: upper s).
    cbn [Re.search_regex]. rewrite IH. f_equal.
    by apply (match_here_upper r (x :: s)).
Qed.

Lemma search_regex_app_r (r : Re.regex) before s :
  Re.search_regex r s = true -> Re.search_regex r (before ++ s) = true.
Proof.
  intros Hs. induction before as [|x before IH]; [done | ].
  cbn [app Re.search_regex]. rewrite IH. apply orb_true_r.
Qed.

End CaseInsensitive.

(** X2: the category of a URL does not depend on the case of its ASCII
    letters: the URL in upper case is classified as the URL itself. *)
Theorem categorize_url_ignores_case (u : pystr) :
  categorize_url (upper u) = categorize_url u.
Proof.
  unfold categorize_url.
  assert (forall p, Re.search p (upper u) = Re.search p u) as Hsearch.
  { intros p. unfold Re.search. destruct (Re.parse p); [ | done].
    apply search_regex_upper. }
  assert (forall ps, any_pattern ps (upper u) = any_pattern ps u) as Hany.
  { induction ps as [|p ps IH]; simpl; [done | ]. by rewrite Hsearch, IH. }
  induction CATEGORIES as [|[c ps] table IH]; simpl; [done | ].
  by rewrite Hany, IH.
Qed.

(** X3: [js] is the first entry of the table, so a URL that ends in
    [.js], or that holds [.js?], is classified as ["js"] whatever else it
    holds. *)
Theorem categorize_url_js_first (before after : pystr) :
  categorize_url (before ++ py ".js") = py "js"
  /\ categorize_url (before ++ py ".js?" ++ after) = py "js".
Proof.
  assert (forall u,
            (exists r, Re.parse (py "\.js(\?|$)") = Some r
                       /\ Re.search_regex r u = true) ->
            categorize_url u = py "js") as Hjs.
  { intros u (r & Hparse & Hs).
    assert (Re.search (py "\.js(\?|$)") u = true) as Hsearch
      by (unfold Re.search; by rewrite Hparse).
    unfold categorize_url.
    change CATEGORIES
      with ((py "js", [py "\.js(\?|$)"; py "application/javascript"])
            :: drop 1 CATEGORIES).
    cbn [categorize_in any_pattern]. by rewrite Hsearch. }
  split; apply Hjs; eexists; (split; [vm_compute; reflexivity | ]);
    apply search_regex_app_r.
  - vm_compute. reflexivity.
  - cbn [Re.search_regex]. apply orb_true_iff. left.
    vm_compute. reflexivity.
Qed.

(** ** [fetch_urls] *)

Section FetchMore.

Implicit Types (E : env) (w : world) (x y : json) (seen : list json).

Lemma py_eqb_key x y :
  hashable x = true -> hashable y = true ->
  py_eqb x y = true <-> py_key x = py_key y.
Proof.
  destruct x as [|[|]|m|s|?|?], y as [|[|]|n|t|?|?];
    cbn [py_eqb py_key as_number hashable];
    try discriminate; intros _ _;
    first
      [ by (split; [done | done])
      | by (split; [discriminate | intros [=]])
      | rewrite Z.eqb_eq; split; [by intros -> | by intros [= ->]]
      | rewrite Z.eqb_eq; split; [by intros <- | by intros [= <-]]
      | rewrite bool_decide_eq_true; split;
        [by intros -> | by intros [= ->]] ].
Qed.

Lemma existsb_py_eqb_key x seen :
  hashable x = true -> Forall (fun y => hashable y = true) seen ->
  existsb (py_eqb x) seen = false -> py_key x ∉ py_key <$> seen.
Proof.
  intros Hx Hseen Hnone Hin.
  apply list_elem_of_fmap in Hin as (y & Hkey & Hy).
  assert (existsb (py_eqb x) seen = true) as Hsome; [ | congruence].
  apply existsb_exists. exists y. split; [by apply list_elem_of_In | ].
  apply py_eqb_key; [done | | done].
  by apply (proj1 (Forall_forall _ _) Hseen).
Qed.

Lemma set_of_firsts_keys rows :
  forall seen out,
    Forall (fun y => hashable y = true) seen ->
    NoDup (py_key <$> seen) ->
    set_of_firsts rows seen = Ok out ->
    Forall (fun y => hashable y = true) out /\ NoDup (py_key <$> out).
Proof.
  induction rows as [|row rows IH]; intros seen out Hh Hnd; simpl.
  - by intros [= <-].
  - destruct (index_0 row) as [x|e]; [ | discriminate]. simpl.
    unfold set_add. destruct (hashable x) eqn:Hx; [ | discriminate]. simpl.
    apply IH.
    + destruct (existsb (py_eqb x) seen); [done | ].
      apply Forall_app. split; [done | by repeat constructor].
    + destruct (existsb (py_eqb x) seen) eqn:Hex; [done | ].
      rewrite fmap_app. apply NoDup_app. split; [done | ]. split.
      * intros k Hk Hk'. simpl in Hk'.
        apply list_elem_of_singleton in Hk' as ->.
        by apply (existsb_py_eqb_key x seen).
      * apply NoDup_singleton.
Qed.

(** Rows whose first elements are strings: the set holds these strings. *)
Lemma set_of_firsts_strings rows (firsts : list pystr) :
  Forall2 (fun row u => index_0 row = Ok (JStr u)) rows firsts ->
  forall seen,
  exists out,
    set_of_firsts rows seen = Ok out
    /\ forall x, x ∈ out <-> x ∈ seen \/ exists u, u ∈ firsts /\ x = JStr u.
Proof.
  induction 1 as [|row u rows firsts Hrow Hrows IH]; intros seen; simpl.
  - exists seen. split; [done | ]. intros x. split; [by left | ].
    intros [H | (u & Hu & _)]; [done | inversion Hu].
  - rewrite Hrow. simpl. unfold set_add. simpl.
    destruct (existsb (py_eqb (JStr u)) seen) eqn:Hex.
    + destruct (IH seen) as (out & Hout & Hmem).
      exists out. split; [done | ]. intros x. rewrite Hmem.
      apply existsb_py_eqb_str in Hex. split.
      * intros [H | (u' & Hu' & ->)]; [by left | ].
        right. exists u'. split; [by right | done].
      * intros [H | (u' & Hu' & ->)]; [by left | ].
        apply elem_of_cons in Hu' as [-> | Hu']; [by left | ].
        right. eauto.
    + destruct (IH (seen ++ [JStr u])) as (out & Hout & Hmem).
      exists out. split; [done | ]. intros x. rewrite Hmem.
      rewrite elem_of_app, list_elem_of_singleton. split.
      * intros [[H | ->] | (u' & Hu' & ->)]; [by left | | ].
        -- right. exists u. split; [left | done].
        -- right. exists u'. split; [by right | done].
      * intros [H | (u' & Hu' & ->)]; [by left; left | ].
        apply elem_of_cons in Hu' as [-> | Hu']; [by left; right | ].
        right. eauto.
Qed.





End FetchMore.

(** X4: for a response whose numbers are integers (the values of
    [json]; a number with a fraction or an exponent is outside the
    embedding), whatever its shape, [fetch_urls] returns no list and no
    object, and no two of the returned values are equal for Python: a
    value occurs once even when the response holds it in several forms,
    as [true] and [1]. *)
Theorem fetch_urls_distinct_for_python
    (E : env) (d : pystr) (w : world) :
  env_ok E ->
  Forall (fun x => hashable x = true) (fetch_urls E d w).1
  /\ forall i j x y,
       (fetch_urls E d w).1 !! i = Some x ->
       (fetch_urls E d w).1 !! j = Some y ->
       py_eqb x y = true -> i = j.
Proof.
  intros HE.
  assert (Forall (fun x => hashable x = true) (fetch_urls E d w).1
          /\ NoDup (py_key <$> (fetch_urls E d w).1)) as [Hh Hnd].
  { unfold fetch_urls.
    destruct (fetch_try E d) as [urls|e] eqn:Htry; simpl;
      [ | split; [constructor | apply NoDup_nil_2]].
    unfold fetch_try in Htry.
    destruct (http E (api_url d)) as [| |v]; try discriminate.
    destruct (slice_from_1 v) as [sliced|?]; [ | discriminate]. simpl in Htry.
    destruct (iterate sliced) as [rows|?]; [ | discriminate]. simpl in Htry.
    destruct (set_of_firsts rows []) as [s|?] eqn:Hs; [ | discriminate].
    simpl in Htry. injection Htry as <-.
    apply set_of_firsts_keys in Hs as [Hh Hnd];
      [ | constructor | apply NoDup_nil_2].
    by rewrite (HE s). }
  split; [done | ].
  intros i j x y Hi Hj Heq.
  apply py_eqb_key in Heq.
  - apply (proj1 (NoDup_alt _) Hnd i j (py_key x)).
    + by rewrite list_lookup_fmap, Hi.
    + by rewrite list_lookup_fmap, Hj, Heq.
  - apply (proj1 (Forall_forall _ _) Hh). by apply (list_elem_of_lookup_2 _ i).
  - apply (proj1 (Forall_forall _ _) Hh). by apply (list_elem_of_lookup_2 _ j).
Qed.

Lemma fetch_urls_distinct_for_python_witness :
  let E := env_answering
             (Body_json (JArr [JNull; JArr [JBool true]; JArr [JNum 1];
                               JArr [JStr (py "a")]; JArr [JStr (py "a")]])) in
  (fetch_urls E (py "x.com") empty_world).1 = [JBool true; JStr (py "a")]
  /\ Forall (fun x => hashable x = true)
       (fetch_urls E (py "x.com") empty_world).1.
Proof.
  cbv zeta. split; [vm_compute; reflexivity | ].
  eapply (fetch_urls_distinct_for_python _ (py "x.com") empty_world).
  apply env_answering_ok.
Defined.

(** X5: a response body that is a JSON string is not rejected.  The
    slice and the indexing work on strings too: nothing is raised in the
    [try], so no error line is printed and the request is the only thing
    that happens, and [fetch_urls] returns the characters of the string
    after its first one, each once, as strings of length one. *)
Theorem fetch_urls_of_json_string
    (E : env) (d : pystr) (w : world) (s : pystr) :
  env_ok E ->
  http E (api_url d) = Body_json (JStr s) ->
  (exists urls, fetch_try E d = Ok urls)
  /\ (fetch_urls E d w).2 = emit (HttpGet (api_url d)) w
  /\ NoDup (fetch_urls E d w).1
  /\ forall x,
       x ∈ (fetch_urls E d w).1 <-> exists c, c ∈ tail s /\ x = JStr [c].
Proof.
  intros HE Hhttp.
  pose proof (fetch_urls_NoDup E d w HE) as Hnd.
  revert Hnd. unfold fetch_urls, fetch_try. rewrite Hhttp. simpl.
  destruct (set_of_firsts_strings
              (List.map (fun c => JStr [c]) (tail s))
              (List.map (fun c => [c]) (tail s))) with (seen := @nil json)
    as (out & Hout & Hmem).
  { induction (tail s) as [|c t IH]; simpl; by constructor. }
  rewrite Hout. simpl. intros Hnd.
  split; [by eexists | ]. split; [done | ]. split; [done | ].
  intros x. rewrite (HE out), Hmem. split.
  - intros [H | (u & Hu & ->)]; [inversion H | ].
    apply list_elem_of_In, in_map_iff in Hu as (c & <- & Hc).
    exists c. split; [by apply list_elem_of_In | done].
  - intros (c & Hc & ->). right. exists [c]. split; [ | done].
    apply list_elem_of_In, in_map_iff. exists c.
    split; [done | by apply list_elem_of_In].
Qed.

Lemma fetch_urls_of_json_string_witness :
  let E := env_answering (Body_json (JStr (py "abb"))) in
  (fetch_urls E (py "x.com") empty_world).2
  = emit (HttpGet (api_url (py "x.com"))) empty_world
  /\ NoDup (fetch_urls E (py "x.com") empty_world).1
  /\ (JStr (py "b") ∈ (fetch_urls E (py "x.com") empty_world).1
      <-> exists c, c ∈ tail (py "abb") /\ JStr (py "b") = JStr [c]).
Proof.
  cbv zeta.
  destruct (fetch_urls_of_json_string
              (env_answering (Body_json (JStr (py "abb")))) (py "x.com")
              empty_world (py "abb")
              (env_answering_ok (Body_json (JStr (py "abb")))) eq_refl)
    as (_ & Hworld & Hnd & Hmem).
  split; [exact Hworld | ]. split; [exact Hnd | exact (Hmem (JStr (py "b")))].
Defined.


(** ** [scan] *)

Section ScanMore.

Implicit Types (E : env) (w : world) (res : dict (list pystr)).

Lemma classify_all_app (l1 l2 : list json) res :
  classify_all (l1 ++ l2) res
  = match classify_all l1 res with
    | (Ok _, res1) => classify_all l2 res1
    | (Raise e, res1) => (Raise e, res1)
    end.
Proof.
  revert res. induction l1 as [|url l1 IH]; intros res; simpl; [done | ].
  destruct (categorize_value url) as [category|e]; [ | done].
  destruct (dict_append res category (url_text url)) as [res'|e]; [ | done].
  apply IH.
Qed.

Lemma classify_all_keys (urls : list json) :
  forall res r res',
    classify_all urls res = (r, res') ->
    List.map fst res' = List.map fst res.
Proof.
  induction urls as [|url urls IH]; intros res r res'; simpl.
  - by intros [= _ <-].
  - destruct (categorize_value url) as [category|e]; [ | by intros [= _ <-]].
    unfold dict_append.
    destruct (dict_get res category) as [l|] eqn:Hl; [ | by intros [= _ <-]].
    intros Hrec. apply IH in Hrec. rewrite Hrec.
    apply dict_set_keys. eauto.
Qed.

Lemma insert_in_buckets (keys : list pystr) (f : pystr -> list pystr) c u :
  NoDup keys -> c ∈ keys ->
  concat (List.map (fun k => if decide (c = k) then u :: f k else f k) keys)
  ≡ₚ u :: concat (List.map f keys).
Proof.
  induction keys as [|k keys IH]; intros Hnd Hc; [inversion Hc | ].
  apply NoDup_cons in Hnd as [Hk Hnd]. simpl.
  destruct (decide (c = k)) as [-> | Hne].
  - simpl. do 2 f_equiv.
    clear IH Hc Hnd. induction keys as [|k' keys IH]; simpl; [done | ].
    apply not_elem_of_cons in Hk as [Hne Hk].
    rewrite decide_False by done. by rewrite IH.
  - apply elem_of_cons in Hc as [-> | Hc]; [done | ].
    rewrite (IH Hnd Hc). symmetry. apply Permutation_middle.
Qed.

Lemma buckets_partition (keys urls : list pystr) :
  NoDup keys ->
  (forall u, categorize_url u ∈ keys) ->
  concat (List.map (fun k => bucket k urls) keys) ≡ₚ urls.
Proof.
  intros Hnd Hkeys. induction urls as [|u urls IH].
  - clear. induction keys as [|k keys IH]; simpl; [done | ].
    change (bucket k []) with (@nil pystr). by rewrite IH.
  - transitivity (u :: concat (List.map (fun k => bucket k urls) keys));
      [ | by constructor].
    rewrite <- (insert_in_buckets keys (fun k => bucket k urls)
                  (categorize_url u) u Hnd (Hkeys u)).
    reflexivity.
Qed.

Lemma summary_lines_world (d : dict (list pystr)) w :
  summary_lines d w
  = World (trace w
           ++ List.map (fun kv => Print (summary_line (fst kv) (snd kv)))
                (List.filter
                   (fun kv => match snd kv with [] => false | _ => true end)
                   d))
          (files w).
Proof.
  revert w. induction d as [|[cat urls] d IH]; intros [t f]; simpl.
  - by rewrite app_nil_r.
  - destruct urls as [|u urls]; simpl.
    + by rewrite IH.
    + rewrite IH. simpl. by rewrite <- app_assoc.
Qed.

Lemma print_summary_world (self : WaybackCrawl) w :
  print_summary self w
  = World (trace w ++ summary_events (results self)) (files w).
Proof.
  unfold print_summary, summary_events.
  rewrite summary_lines_world. simpl. by rewrite <- app_assoc.
Qed.

End ScanMore.

(** X7: [scan] only appends.  On a scanner whose dictionary holds every
    category, a scan that fetched strings returns [True] and leaves each
    list as it was, followed by the fetched URLs of that category in the
    order in which they were fetched; a second scan on the same object
    therefore lists its URLs again. *)
Theorem scan_appends_to_results
    (E : env) (self : WaybackCrawl) (w : world) (urls : list pystr) :
  (fetch_urls E (domain self) (emit (fetching_line (domain self)) w)).1
  = List.map JStr urls ->
  urls <> [] ->
  NoDup (List.map fst (results self)) ->
  (forall cat, cat ∈ List.map fst CATEGORIES ++ [other] ->
               cat ∈ List.map fst (results self)) ->
  scan E self w
  = (Ok true,
     Scanner (domain self)
       (List.map (fun kv => (kv.1, kv.2 ++ bucket kv.1 urls)) (results self)),
     emit (categorizing_line (length urls))
       (fetch_urls E (domain self) (emit (fetching_line (domain self)) w)).2).
Proof.
  intros Hfetch Hne Hnd Hkeys. unfold scan.
  destruct (fetch_urls E (domain self) (emit (fetching_line (domain self)) w))
    as [fetched w2].
  simpl in Hfetch. subst fetched.
  destruct urls as [|u urls]; [done | ].
  change (List.map JStr (u :: urls)) with (JStr u :: List.map JStr urls).
  cbv iota.
  change (JStr u :: List.map JStr urls) with (List.map JStr (u :: urls)).
  rewrite classify_all_strings.
  - unfold categorizing_line. by rewrite length_map.
  - done.
  - intros u'. apply dict_get_is_Some, Hkeys. apply categorize_in_range.
Qed.

Lemma scan_appends_to_results_witness :
  let E := env_answering (Body_json example_rows) in
  let self := Scanner (py "x.com") example_results in
  let urls := flat_map snd example_results in
  scan E self empty_world
  = (Ok true,
     Scanner (py "x.com")
       (List.map (fun kv => (kv.1, kv.2 ++ bucket kv.1 urls)) example_results),
     emit (categorizing_line (length urls))
       (fetch_urls E (py "x.com")
          (emit (fetching_line (py "x.com")) empty_world)).2).
Proof.
  cbv zeta.
  apply (scan_appends_to_results
           (env_answering (Body_json example_rows))
           (Scanner (py "x.com") example_results) empty_world
           (flat_map snd example_results)).
  - vm_compute. reflexivity.
  - vm_compute. discriminate.
  - apply (bool_decide_unpack (NoDup (List.map fst example_results))).
    vm_compute. exact I.
  - intros cat Hcat. exact Hcat.
Defined.

(** X8: classification loses nothing and invents nothing.  On a fresh
    scanner the loop never fails on strings; afterwards the lists of the
    six keys together hold exactly the URLs that were classified, each
    URL in the list of its own category. *)
Theorem classify_all_partitions (urls : list pystr) :
  exists res,
    classify_all (List.map JStr urls) init_results = (Ok tt, res)
    /\ List.map fst res = List.map fst CATEGORIES ++ [other]
    /\ concat (List.map snd res) ≡ₚ urls
    /\ forall cat l, (cat, l) ∈ res ->
         forall u, u ∈ l <-> u ∈ urls /\ categorize_url u = cat.
Proof.
  exists (run_results urls).
  split; [apply classify_all_init | ].
  split; [apply run_results_keys | ].
  split.
  - unfold run_results. rewrite map_map. cbn [snd].
    etransitivity;
      [ | apply (buckets_partition (List.map fst init_results) urls)].
    + by rewrite map_map.
    + apply init_results_NoDup.
    + intros u. rewrite init_results_keys. apply categorize_in_range.
  - intros cat l Hin u. unfold run_results in Hin.
    apply list_elem_of_In, in_map_iff in Hin as (kv & [= <- <-] & _).
    unfold bucket. rewrite list_elem_of_filter. tauto.
Qed.

(** X9: a fetched value that is not a string stops the scan with a
    [TypeError]: the URLs before it are classified and stay in the
    dictionary, those after it are not looked at, and the run ends with
    the exception, without a file. *)
Theorem scan_raises_on_non_string
    (E : env) (prog d : pystr) (args : list pystr) (w : world)
    (before : list pystr) (bad : json) (after : list json) :
  (fetch_urls E d (emit (fetching_line d) w)).1
  = List.map JStr before ++ bad :: after ->
  (forall s, bad <> JStr s) ->
  exists w1,
    scan E (init d) w = (Raise TypeError, Scanner d (run_results before), w1)
    /\ main E (prog :: d :: args) w = (Uncaught TypeError, w1)
    /\ written w1 = written w
    /\ files w1 = files w.
Proof.
  intros Hfetch Hbad.
  pose proof (scan_written E (init d) w) as Hw.
  pose proof (scan_files E (init d) w) as Hf.
  assert (scan E (init d) w
          = (Raise TypeError, Scanner d (run_results before),
             (scan E (init d) w).2)) as Hscan.
  { revert Hw Hf. unfold scan. cbn [init domain results].
    destruct (fetch_urls E d (emit (fetching_line d) w)) as [fetched w2].
    simpl in Hfetch. subst fetched. intros _ _.
    assert (classify_all (List.map JStr before ++ bad :: after) init_results
            = (Raise TypeError, run_results before)) as Hc.
    { rewrite classify_all_app, classify_all_init. simpl.
      destruct bad as [| | |s|?|?]; try done. by destruct (Hbad s). }
    destruct (List.map JStr before ++ bad :: after) as [|x l] eqn:Hl.
    { by destruct before. }
    by rewrite Hc. }
  exists (scan E (init d) w).2.
  split; [done | ]. split; [ | done].
  destruct (main_run E prog d args w) as (out & _ & ->).
  by rewrite Hscan.
Qed.

Lemma scan_raises_on_non_string_witness :
  let E := env_answering
             (Body_json (JArr [JNull; JArr [JStr (py "http://x.com/a.js")];
                               JArr [JNum 7]; JArr [JStr (py "z")]])) in
  exists w1,
    scan E (init (py "x.com")) empty_world
    = (Raise TypeError,
       Scanner (py "x.com") (run_results [py "http://x.com/a.js"]), w1)
    /\ main E [py "waybackcrawl.py"; py "x.com"] empty_world
       = (Uncaught TypeError, w1)
    /\ written w1 = written empty_world
    /\ files w1 = files empty_world.
Proof.
  cbv zeta.
  apply (scan_raises_on_non_string _ (py "waybackcrawl.py") (py "x.com") []
           empty_world [py "http://x.com/a.js"] (JNum 7) [JStr (py "z")]).
  - vm_compute. reflexivity.
  - intros s. discriminate.
Defined.

(** X10: whatever [scan] does, it keeps the keys of the result dictionary
    and the domain of the scanner: no category is added, removed or
    reordered, even when the scan fails. *)
Theorem scan_keeps_keys (E : env) (self : WaybackCrawl) (w : world) :
  List.map fst (results (scan E self w).1.2) = List.map fst (results self)
  /\ domain (scan E self w).1.2 = domain self.
Proof.
  unfold scan.
  destruct (fetch_urls E (domain self) (emit (fetching_line (domain self)) w))
    as [urls w2].
  destruct urls as [|u urls]; [done | ].
  destruct (classify_all (u :: urls) (results self)) as [r res'] eqn:Hc.
  apply classify_all_keys in Hc. by destruct r.
Qed.

(** X11: on a dictionary with ASCII keys, as the one [__init__] makes,
    [print_summary] prints the heading and then, in the order of the
    dictionary, one line for every category that holds a URL; a category
    with an empty list gets no line, and nothing else changes.  (For a
    key outside ASCII [str.upper] is not [upper], hence the condition.) *)
Theorem print_summary_skips_empty (self : WaybackCrawl) (w : world) :
  Forall (fun kv => ascii_text (fst kv) = true) (results self) ->
  print_summary self w
  = World (trace w
           ++ Print (10 :: py "[+] Discovered URLs by Category:")
              :: List.map
                   (fun kv => Print (py "  " ++ ljust 10 (upper (fst kv))
                                     ++ py ": "
                                     ++ str_of_nat (length (snd kv))
                                     ++ py " URLs"))
                   (List.filter
                      (fun kv => match snd kv with [] => false | _ => true end)
                      (results self)))
          (files w).
Proof. intros _. apply print_summary_world. Qed.

Lemma print_summary_skips_empty_witness :
  print_summary
    (Scanner (py "x.com")
       [ (py "js", [py "http://x.com/a.js"; py "http://x.com/b.js"]);
         (py "api", []);
         (py "other", [py "http://x.com/"]) ])
    empty_world
  = World [ Print (10 :: py "[+] Discovered URLs by Category:");
            Print (py "  JS        : 2 URLs");
            Print (py "  OTHER     : 1 URLs") ]
          ∅.
Proof.
  rewrite (print_summary_skips_empty
             (Scanner (py "x.com")
                [ (py "js", [py "http://x.com/a.js"; py "http://x.com/b.js"]);
                  (py "api", []);
                  (py "other", [py "http://x.com/"]) ])
             empty_world).
  - vm_compute. reflexivity.
  - repeat (constructor; [reflexivity | ]). constructor.
Defined.

(** ** The entry point *)

Section MainMore.

Implicit Types (E : env) (w : world).

Lemma scan_fetched E d w (urls : list pystr) :
  fetch_try E d = Ok (List.map JStr urls) ->
  urls <> [] ->
  scan E (init d) w
  = (Ok true, Scanner d (run_results urls),
     World (trace w ++ [fetching_line d; HttpGet (api_url d);
                        categorizing_line (length urls)])
           (files w)).
Proof.
  intros Hfetch Hne. unfold scan, fetch_urls. cbn [init domain results].
  rewrite Hfetch. destruct urls as [|u urls]; [done | ].
  change (List.map JStr (u :: urls)) with (JStr u :: List.map JStr urls).
  cbv beta iota zeta.
  change (JStr u :: List.map JStr urls) with (List.map JStr (u :: urls)).
  rewrite classify_all_init, length_map.
  unfold run_results, categorizing_line, emit. cbn [trace files].
  by rewrite <- !app_assoc.
Qed.

Lemma scan_failed E d w e :
  fetch_try E d = Raise e ->
  scan E (init d) w
  = (Ok false, init d,
     World (trace w ++ [fetching_line d; HttpGet (api_url d);
                        PrintApiError e; Print (py "[-] No URLs found")])
           (files w)).
Proof.
  intros Hfetch. unfold scan, fetch_urls. cbn [init domain results].
  rewrite Hfetch. cbv beta iota zeta. unfold emit. cbn [trace files].
  by rewrite <- !app_assoc.
Qed.

Lemma main_of_scan E prog d args w out :
  output_file (prog :: d :: args) = Ok out ->
  main E (prog :: d :: args) w
  = match scan E (init d) w with
    | (Raise e, _, w1) => (Uncaught e, w1)
    | (Ok false, _, w1) => (Finished, w1)
    | (Ok true, scanner, w1) =>
        if can_open E out then (Finished, world_saved scanner out w1)
        else (Uncaught OSError, w1)
    end.
Proof.
  intros Hout. destruct (main_run E prog d args w) as (out' & Hout' & ->).
  rewrite Hout in Hout'. by injection Hout' as <-.
Qed.

Lemma forallb_flat_map {A} (p : N -> bool) (f : A -> pystr) (l : list A) :
  (forall x, forallb p (f x) = true) ->
  forallb p (flat_map f l) = true.
Proof.
  intros Hf. induction l as [|x l IH]; simpl; [done | ].
  by rewrite forallb_app, Hf, IH.
Qed.

Lemma plain_ascii_hex_digit (d : N) :
  d < 16 -> plain_ascii (Encoder.hex_digit d) = true.
Proof.
  intros Hd. unfold Encoder.hex_digit, plain_ascii.
  destruct (N.ltb_spec d 10).
  - apply orb_true_iff. right. apply andb_true_iff.
    split; apply N.leb_le; lia.
  - apply orb_true_iff. right. apply andb_true_iff.
    split; apply N.leb_le; lia.
Qed.

Lemma plain_ascii_u_escape (n : N) :
  forallb plain_ascii (Encoder.u_escape n) = true.
Proof.
  unfold Encoder.u_escape, Encoder.hex4. cbn [forallb].
  rewrite !plain_ascii_hex_digit by (apply N.mod_upper_bound; lia).
  reflexivity.
Qed.

Lemma plain_ascii_escape_char (c : N) :
  forallb plain_ascii (Encoder.escape_char c) = true.
Proof.
  unfold Encoder.escape_char.
  repeat match goal with
         | |- context [if ?x =? ?y then _ else _] => destruct (x =? y)
         end; try reflexivity.
  destruct ((32 <=? c) && (c <=? 126)) eqn:Hc.
  - cbn [forallb]. unfold plain_ascii. rewrite Hc. by rewrite orb_true_r.
  - destruct (c <? 65536); [apply plain_ascii_u_escape | ].
    cbv zeta. by rewrite forallb_app, !plain_ascii_u_escape.
Qed.

Lemma plain_ascii_string (s : pystr) :
  forallb plain_ascii (Encoder.encode_basestring_ascii s) = true.
Proof.
  unfold Encoder.encode_basestring_ascii. cbn [forallb].
  rewrite forallb_app, forallb_flat_map by apply plain_ascii_escape_char.
  reflexivity.
Qed.

Lemma plain_ascii_newline_indent (level : nat) :
  forallb plain_ascii (Encoder.newline_indent level) = true.
Proof.
  unfold Encoder.newline_indent. cbn [forallb].
  induction (2 * level)%nat as [|n IH]; simpl; [done | apply IH].
Qed.

Lemma plain_ascii_list (l : list pystr) (level : nat) :
  forallb plain_ascii (Encoder.iterencode_list l level) = true.
Proof.
  destruct l as [|x l]; [reflexivity | ].
  unfold Encoder.iterencode_list. cbn [forallb].
  rewrite !forallb_app, plain_ascii_newline_indent, plain_ascii_string.
  rewrite forallb_flat_map; [by rewrite plain_ascii_newline_indent | ].
  intros y. cbn [forallb].
  by rewrite forallb_app, plain_ascii_newline_indent, plain_ascii_string.
Qed.

Lemma plain_ascii_member (kv : pystr * list pystr) (level : nat) :
  forallb plain_ascii (Encoder.encode_member kv level) = true.
Proof.
  unfold Encoder.encode_member.
  by rewrite !forallb_app, plain_ascii_string, plain_ascii_list.
Qed.

End MainMore.

(** X12: the output file is taken from the third word of the command
    line only.  Choosing it never fails: the name is
    ["wayback_results.json"] unless that word starts with ["--output="],
    and then it is what follows the option name up to the next ["="].
    An option given in a later position, or as two words, is ignored. *)
Theorem output_file_from_third_argument
    (prog d arg2 : pystr) (rest : list pystr) :
  output_file [prog; d] = Ok (py "wayback_results.json")
  /\ output_file (prog :: d :: arg2 :: rest)
     = Ok (if startswith arg2 (py "--output=")
           then before_first 61 (drop 9 arg2)
           else py "wayback_results.json").
Proof.
  split; [reflexivity | ].
  destruct (startswith arg2 (py "--output=")) eqn:Hs.
  - apply startswith_spec in Hs as [path ->].
    rewrite output_file_option. reflexivity.
  - unfold output_file. by rewrite Hs.
Qed.

(** X14: when the output file cannot be opened, the work of the scan is
    lost.  The URLs have been fetched and classified, but the run ends
    with the [OSError] of [open]: no file is written, the line
    ["Results saved"] and the summary are not printed. *)
Theorem main_open_failure_loses_results
    (E : env) (prog d : pystr) (args : list pystr) (w : world)
    (out : pystr) (urls : list pystr) :
  output_file (prog :: d :: args) = Ok out ->
  can_open E out = false ->
  fetch_try E d = Ok (List.map JStr urls) ->
  urls <> [] ->
  main E (prog :: d :: args) w
  = (Uncaught OSError,
     World (trace w ++ [fetching_line d; HttpGet (api_url d);
                        categorizing_line (length urls)])
           (files w)).
Proof.
  intros Hout Hopen Hfetch Hne.
  rewrite (main_of_scan E prog d args w out Hout).
  rewrite (scan_fetched E d w urls Hfetch Hne). by rewrite Hopen.
Qed.

Lemma main_open_failure_loses_results_witness :
  main (env_read_only (Body_json example_rows))
    [py "waybackcrawl.py"; py "x.com"] empty_world
  = (Uncaught OSError,
     World [fetching_line (py "x.com"); HttpGet (api_url (py "x.com"));
            categorizing_line 6]
           ∅).
Proof.
  apply (main_open_failure_loses_results
           (env_read_only (Body_json example_rows))
           (py "waybackcrawl.py") (py "x.com") [] empty_world
           (py "wayback_results.json") (flat_map snd example_results)).
  - reflexivity.
  - reflexivity.
  - vm_compute. reflexivity.
  - vm_compute. discriminate.
Defined.

(** X15: what a successful run does, in order: it announces the fetch,
    makes the request, announces the number of URLs, writes the file with
    the classified URLs, reports the file name, prints the summary, and
    finishes normally.  The file holds the text of the result
    dictionary, and the summary counts the same dictionary. *)
Theorem main_success_trace
    (E : env) (prog d : pystr) (args : list pystr) (w : world)
    (out : pystr) (urls : list pystr) :
  output_file (prog :: d :: args) = Ok out ->
  can_open E out = true ->
  fetch_try E d = Ok (List.map JStr urls) ->
  urls <> [] ->
  main E (prog :: d :: args) w
  = (Finished,
     World (trace w
            ++ [fetching_line d; HttpGet (api_url d);
                categorizing_line (length urls);
                FileWrite out (Encoder.dumps (run_results urls));
                Print (py "[+] Results saved to " ++ out)]
            ++ summary_events (run_results urls))
           (<[out := Encoder.dumps (run_results urls)]> (files w))).
Proof.
  intros Hout Hopen Hfetch Hne.
  rewrite (main_of_scan E prog d args w out Hout).
  rewrite (scan_fetched E d w urls Hfetch Hne), Hopen.
  unfold world_saved. rewrite print_summary_world.
  unfold emit. cbn [trace files results]. by rewrite <- !app_assoc.
Qed.

Lemma main_success_trace_witness :
  let urls := flat_map snd example_results in
  main (env_answering (Body_json example_rows))
    [py "waybackcrawl.py"; py "x.com"; py "--output=out.json"] empty_world
  = (Finished,
     World ([fetching_line (py "x.com"); HttpGet (api_url (py "x.com"));
             categorizing_line (length urls);
             FileWrite (py "out.json") (Encoder.dumps (run_results urls));
             Print (py "[+] Results saved to " ++ py "out.json")]
            ++ summary_events (run_results urls))
           (<[py "out.json" := Encoder.dumps (run_results urls)]> ∅)).
Proof.
  cbv zeta.
  apply (main_success_trace (env_answering (Body_json example_rows))
           (py "waybackcrawl.py") (py "x.com") [py "--output=out.json"]
           empty_world (py "out.json") (flat_map snd example_results)).
  - vm_compute. reflexivity.
  - reflexivity.
  - vm_compute. reflexivity.
  - vm_compute. discriminate.
Defined.

(** X16: an exception in the body of the [try] of [fetch_urls] does not
    end the run with an error.  Whatever was raised (no connection, a
    body that is not JSON, JSON of another shape), the run prints the
    error line and ["[-] No URLs found"], touches no file and finishes
    normally. *)
Theorem main_swallows_fetch_error
    (E : env) (prog d : pystr) (args : list pystr) (w : world) (e : exn) :
  fetch_try E d = Raise e ->
  main E (prog :: d :: args) w
  = (Finished,
     World (trace w ++ [fetching_line d; HttpGet (api_url d);
                        PrintApiError e; Print (py "[-] No URLs found")])
           (files w)).
Proof.
  intros Hfetch.
  destruct (output_file_total (prog :: d :: args)) as [out Hout].
  rewrite (main_of_scan E prog d args w out Hout).
  by rewrite (scan_failed E d w e Hfetch).
Qed.

Lemma main_swallows_fetch_error_witness :
  main (env_answering (Body_json (JObj [(py "error", JStr (py "blocked"))])))
    [py "waybackcrawl.py"; py "x.com"] empty_world
  = (Finished,
     World [fetching_line (py "x.com"); HttpGet (api_url (py "x.com"));
            PrintApiError TypeError; Print (py "[-] No URLs found")]
           ∅).
Proof.
  apply (main_swallows_fetch_error
           (env_answering (Body_json (JObj [(py "error", JStr (py "blocked"))])))
           (py "waybackcrawl.py") (py "x.com") [] empty_world TypeError).
  reflexivity.
Defined.

(** X17: the text that [save_results] writes is plain ASCII, whatever
    the URLs are: every character of the file is a newline or a
    printable ASCII character, anything else in a URL is written as an
    escape. *)
Theorem dumps_plain_ascii (d : dict (list pystr)) :
  forallb plain_ascii (Encoder.dumps d) = true.
Proof.
  unfold Encoder.dumps. destruct d as [|kv d]; [reflexivity | ].
  unfold Encoder.iterencode_dict. cbn [forallb].
  rewrite !forallb_app, plain_ascii_newline_indent, plain_ascii_member.
  rewrite forallb_flat_map; [by rewrite plain_ascii_newline_indent | ].
  intros kv'. cbn [forallb].
  by rewrite forallb_app, plain_ascii_newline_indent, plain_ascii_member.
Qed.

(** ** From the archive to the file *)

Section EndToEnd.

Implicit Types (E : env) (w : world).

Lemma NoDup_map_JStr (urls : list pystr) :
  NoDup (List.map JStr urls) -> NoDup urls.
Proof.
  induction urls as [|u urls IH]; simpl; intros Hnd; [constructor | ].
  apply NoDup_cons in Hnd as [Hu Hnd]. apply NoDup_cons.
  split; [ | by apply IH].
  intros Hin. apply Hu. apply list_elem_of_In, in_map, list_elem_of_In, Hin.
Qed.

Lemma fetch_try_rows E d header (rows : list (pystr * list json)) :
  env_ok E ->
  http E (api_url d) = Body_json (archive_response header rows) ->
  exists urls,
    fetch_try E d = Ok (List.map JStr urls)
    /\ NoDup urls
    /\ forall u, u ∈ urls <-> exists r, r ∈ rows /\ u = r.1.
Proof.
  intros HE Hhttp.
  pose proof (fetch_urls_NoDup E d empty_world HE) as Hnd.
  pose proof (fetch_urls_rows E d empty_world header rows HE Hhttp) as Hmem.
  unfold fetch_urls in Hnd, Hmem.
  destruct (fetch_try E d) as [l|e] eqn:Htry.
  2: { unfold fetch_try in Htry. rewrite Hhttp in Htry. simpl in Htry.
       destruct (set_of_firsts_rows rows []) as (out & Hout & _).
       rewrite Hout in Htry. discriminate. }
  cbn [fst] in Hnd, Hmem.
  assert (l = List.map JStr (List.map url_text l)) as Hl.
  { apply strings_map_url_text, Forall_forall. intros x Hx.
    by apply Hmem in Hx as (r & _ & ->). }
  exists (List.map url_text l).
  split; [by rewrite <- Hl | ].
  split; [apply NoDup_map_JStr; by rewrite <- Hl | ].
  intros u. split.
  - intros Hu. apply list_elem_of_In, in_map_iff in Hu as (x & <- & Hx).
    apply list_elem_of_In, Hmem in Hx as (r & Hr & ->). by exists r.
  - intros (r & Hr & ->).
    assert (JStr r.1 ∈ l) as Hx by (apply Hmem; by exists r).
    apply list_elem_of_In. apply list_elem_of_In in Hx.
    apply (in_map url_text) in Hx. exact Hx.
Qed.

End EndToEnd.

(** X18: from the archive to the file.  When the archive answers with a
    header row and at least one URL row and the output file can be
    opened, the file is written with a list for each of the six keys,
    and together the lists hold every URL of the rows exactly once, each
    under its own category, and nothing else. *)
Theorem main_saves_each_archived_url_once
    (E : env) (prog d : pystr) (args : list pystr) (w : world)
    (header : json) (rows : list (pystr * list json)) (out : pystr) :
  env_ok E ->
  http E (api_url d) = Body_json (archive_response header rows) ->
  rows <> [] ->
  output_file (prog :: d :: args) = Ok out ->
  can_open E out = true ->
  exists res,
    files (main E (prog :: d :: args) w).2 !! out = Some (Encoder.dumps res)
    /\ List.map fst res = List.map fst CATEGORIES ++ [other]
    /\ NoDup (concat (List.map snd res))
    /\ forall cat l, (cat, l) ∈ res ->
         forall u, u ∈ l <->
                   (exists r, r ∈ rows /\ u = r.1) /\ categorize_url u = cat.
Proof.
  intros HE Hhttp Hrows Hout Hopen.
  destruct (fetch_try_rows E d header rows HE Hhttp)
    as (urls & Hfetch & Hnd & Hmem).
  assert (urls <> []) as Hne.
  { destruct rows as [|r rows]; [done | ].
    assert (r.1 ∈ urls) as Hr by (apply Hmem; exists r; split; [left | done]).
    intros ->. inversion Hr. }
  exists (run_results urls).
  split.
  { rewrite (main_of_scan E prog d args w out Hout).
    rewrite (scan_fetched E d w urls Hfetch Hne), Hopen. cbn [snd].
    rewrite world_saved_files. cbn [results files].
    apply lookup_insert_eq. }
  split; [apply run_results_keys | ].
  split.
  { assert (concat (List.map snd (run_results urls)) ≡ₚ urls) as ->; [ | done].
    unfold run_results. rewrite map_map. cbn [snd].
    etransitivity;
      [ | apply (buckets_partition (List.map fst init_results) urls)].
    - by rewrite map_map.
    - apply init_results_NoDup.
    - intros u. rewrite init_results_keys. apply categorize_in_range. }
  intros cat l Hin u. unfold run_results in Hin.
  apply list_elem_of_In, in_map_iff in Hin as (kv & [= <- <-] & _).
  unfold bucket. rewrite list_elem_of_filter, Hmem. tauto.
Qed.

Lemma main_saves_each_archived_url_once_witness :
  let rows := List.map (fun u => (u, @nil json))
                (flat_map snd example_results) in
  exists res,
    files (main (env_answering (Body_json example_rows))
             [py "waybackcrawl.py"; py "x.com"] empty_world).2
    !! py "wayback_results.json" = Some (Encoder.dumps res)
    /\ List.map fst res = List.map fst CATEGORIES ++ [other]
    /\ NoDup (concat (List.map snd res))
    /\ forall cat l, (cat, l) ∈ res ->
         forall u, u ∈ l <->
                   (exists r, r ∈ rows /\ u = r.1) /\ categorize_url u = cat.
Proof.
  cbv zeta.
  apply (main_saves_each_archived_url_once
           (env_answering (Body_json example_rows))
           (py "waybackcrawl.py") (py "x.com") [] empty_world
           (JArr [JStr (py "original")])
           (List.map (fun u => (u, @nil json))
              (flat_map snd example_results))
           (py "wayback_results.json")).
  - apply env_answering_ok.
  - vm_compute. reflexivity.
  - vm_compute. discriminate.
  - reflexivity.
  - reflexivity.
Defined.

(** ** The output option *)

(** C10: when [sys.argv[2]] starts with ["--output="], the output path is
    the part of the argument between its first and its second ["="];
    whatever follows a second ["="] is dropped.  A run writes at most one
    file and only under the shortened name; a run that fetched URLs, with
    a file of that name that can be opened, writes the results under the
    shortened name, and that file then holds them. *)
Theorem output_file_cut_at_second_equals
    (E : env) (prog d arg2 : pystr) (rest : list pystr) (w : world) :
  startswith arg2 (py "--output=") = true ->
  exists name,
    output_file (prog :: d :: arg2 :: rest) = Ok name
    /\ (61 ∉ name)
    /\ (arg2 = py "--output=" ++ name
        \/ exists dropped, arg2 = py "--output=" ++ name ++ 61 :: dropped)
    /\ (written (main E (prog :: d :: arg2 :: rest) w).2 = written w
        \/ exists text,
             written (main E (prog :: d :: arg2 :: rest) w).2
             = written w ++ [(name, text)])
    /\ (forall urls,
          fetch_try E d = Ok (List.map JStr urls) ->
          urls <> [] ->
          can_open E name = true ->
          written (main E (prog :: d :: arg2 :: rest) w).2
          = written w ++ [(name, Encoder.dumps (run_results urls))]
          /\ files (main E (prog :: d :: arg2 :: rest) w).2 !! name
             = Some (Encoder.dumps (run_results urls))).
Proof.
  intros Hs. apply startswith_spec in Hs as [path ->].
  exists (before_first 61 path).
  pose proof (output_file_option path prog d rest) as Hout.
  split; [done | ]. split; [apply before_first_free | ].
  split.
  { destruct (before_first_decompose 61 path) as [H | [dropped H]].
    - left. by rewrite <- H.
    - right. exists dropped. by rewrite <- H. }
  split; [by apply main_written_path | ].
  intros urls Hfetch Hne Hopen.
  pose proof (scan_written E (init d) w) as Hw.
  rewrite (main_of_scan E prog d _ w _ Hout).
  rewrite (scan_fetched E d w urls Hfetch Hne) in Hw |- *.
  rewrite Hopen. cbn [snd] in Hw |- *.
  split.
  - by rewrite world_saved_written, Hw.
  - rewrite world_saved_files. cbn [results files]. apply lookup_insert_eq.
Qed.

Lemma output_file_cut_at_second_equals_witness :
  let E := env_answering (Body_json example_rows) in
  let argv := [py "waybackcrawl.py"; py "x.com"; py "--output=a=b.json"] in
  let text := Encoder.dumps (run_results (flat_map snd example_results)) in
  output_file argv = Ok (py "a")
  /\ written (main E argv empty_world).2 = [(py "a", text)]
  /\ files (main E argv empty_world).2 !! py "a" = Some text.
Proof.
  cbv zeta.
  destruct (output_file_cut_at_second_equals
              (env_answering (Body_json example_rows))
              (py "waybackcrawl.py") (py "x.com") (py "--output=a=b.json")
              [] empty_world)
    as (name & Hout & _ & _ & _ & Hrun).
  - vm_compute. reflexivity.
  - assert (name = py "a") as ->.
    { vm_compute in Hout. by injection Hout as <-. }
    destruct (Hrun (flat_map snd example_results)) as [Hwritten Hfile].
    + vm_compute. reflexivity.
    + vm_compute. discriminate.
    + reflexivity.
    + split; [exact Hout | ]. split; [exact Hwritten | exact Hfile].
Defined.
